(** * skrl: the Gaussian (stochastic) model, [skrl/models/torch/gaussian.py]

    A shallow embedding of [GaussianModel] and of the part of the tensor
    runtime it calls, followed by the properties of [__init__], [act],
    [get_entropy], [get_log_std] and [distribution].

    Conventions of the embedding.
    - Tensor elements are real numbers ([R]): rounding, overflow and NaN of
      the floating-point runtime are outside the model.
    - A tensor is a shape together with an element function on multi-indices;
      only the elements at in-bounds indices are meaningful.
    - Python exceptions are values of [exn]; a call that may raise returns a
      [result].  [act] mutates the instance, also when it raises half way, so
      it is written in a state-and-exception monad over [GaussianModel].
    - The sampling noise of [rsample] is an explicit argument of [act]. *)

From Stdlib Require Import Reals Lra Lia String Bool Arith List.
Import ListNotations.

Open Scope R_scope.

(** ** Exceptions and results *)

Inductive exn : Type :=
| ValueError (msg : string)
| AttributeError (msg : string)
| TypeError
| IndexError
| RuntimeError
| ProviderError (msg : string).

Inductive result (A : Type) : Type :=
| Ok (a : A)
| Err (e : exn).

Arguments Ok {A} a.
Arguments Err {A} e.

Definition is_ok {A : Type} (r : result A) : bool :=
  match r with Ok _ => true | Err _ => false end.

(** ** The tensor runtime *)

Module Torch.

Definition index := list nat.

Record Tensor : Type := mkTensor {
  shape : list nat;
  elem : index -> R
}.

Definition dim (t : Tensor) : nat := length (shape t).

(** [idx] addresses an element of a tensor of shape [sh]. *)
Definition in_bounds (idx : index) (sh : list nat) : Prop :=
  Forall2 lt idx sh.

(** [t.shape[0]] *)
Definition shape0 (t : Tensor) : result nat :=
  match shape t with
  | [] => Err IndexError
  | n :: _ => Ok n
  end.

Definition tmap (f : R -> R) (t : Tensor) : Tensor :=
  mkTensor (shape t) (fun idx => f (elem t idx)).

(** [torch.clamp(t, lo, hi)] with number bounds: [min(max(x, lo), hi)]. *)
Definition clamp (t : Tensor) (lo hi : R) : Tensor :=
  tmap (fun x => Rmin (Rmax x lo) hi) t.

(** [t.exp()] and [t.log()] *)
Definition texp (t : Tensor) : Tensor := tmap exp t.
Definition tlog (t : Tensor) : Tensor := tmap ln t.

(** [t.detach()] and [t.to(device)]: the elements are unchanged. *)
Definition detach (t : Tensor) : Tensor := t.
Definition to (t : Tensor) (device : string) : Tensor := t.

(** *** Broadcasting

    Shapes are aligned on their last dimension; two sizes are compatible when
    they are equal or one of them is 1. *)

Fixpoint bshape_rev (r1 r2 : list nat) : option (list nat) :=
  match r1, r2 with
  | [], r => Some r
  | r, [] => Some r
  | d1 :: t1, d2 :: t2 =>
      match bshape_rev t1 t2 with
      | None => None
      | Some t =>
          if (d1 =? d2)%nat then Some (d1 :: t)
          else if (d1 =? 1)%nat then Some (d2 :: t)
          else if (d2 =? 1)%nat then Some (d1 :: t)
          else None
      end
  end.

Definition broadcast_shapes (s1 s2 : list nat) : option (list nat) :=
  option_map (@rev nat) (bshape_rev (rev s1) (rev s2)).

(** The index of the source element that lands at [idx] when a tensor of
    shape [sh] is expanded: leading positions are dropped, and a position of
    size 1 is read at 0. *)
Fixpoint bindex_rev (rsh ridx : list nat) : list nat :=
  match rsh, ridx with
  | d :: rsh', i :: ridx' =>
      (if (d =? 1)%nat then O else i) :: bindex_rev rsh' ridx'
  | _, _ => []
  end.

Definition bindex (sh : list nat) (idx : index) : index :=
  rev (bindex_rev (rev sh) (rev idx)).

(** [t.expand(sh)] *)
Definition expand (t : Tensor) (sh : list nat) : Tensor :=
  mkTensor sh (fun idx => elem t (bindex (shape t) idx)).

(** [torch.broadcast_tensors(a, b)] *)
Definition broadcast_tensors (a b : Tensor) : result (Tensor * Tensor) :=
  match broadcast_shapes (shape a) (shape b) with
  | None => Err RuntimeError
  | Some sh => Ok (expand a sh, expand b sh)
  end.

(** An element-wise binary operation, with broadcasting. *)
Definition tmap2 (f : R -> R -> R) (a b : Tensor) : result Tensor :=
  match broadcast_tensors a b with
  | Err e => Err e
  | Ok (a', b') =>
      Ok (mkTensor (shape a') (fun idx => f (elem a' idx) (elem b' idx)))
  end.

(** [torch.min(a, b)] and [torch.max(a, b)] on two tensors. *)
Definition tmin (a b : Tensor) : result Tensor := tmap2 Rmin a b.
Definition tmax (a b : Tensor) : result Tensor := tmap2 Rmax a b.

(** [torch.clamp(t, min=lo, max=hi)] with tensor bounds. *)
Definition clamp_tensor (t lo hi : Tensor) : result Tensor :=
  match tmax t lo with
  | Err e => Err e
  | Ok t' => tmin t' hi
  end.

(** *** Reductions over the last dimension ([dim=-1]) *)

Inductive reduction_fn : Type := torch_mean | torch_sum | torch_prod.

Definition Rsum (l : list R) : R := fold_right Rplus 0 l.
Definition Rprod (l : list R) : R := fold_right Rmult 1 l.

Definition reduce_list (f : reduction_fn) (l : list R) : R :=
  match f with
  | torch_sum => Rsum l
  | torch_prod => Rprod l
  | torch_mean => Rsum l / INR (length l)
  end.

(** [f(t, dim=-1)]: the last dimension is removed; a 0-dimensional tensor is
    reduced as its single element. *)
Definition reduce_last (f : reduction_fn) (t : Tensor) : Tensor :=
  match rev (shape t) with
  | [] => mkTensor [] (fun idx => reduce_list f [elem t idx])
  | d :: rpre =>
      mkTensor (rev rpre)
        (fun idx => reduce_list f (map (fun k => elem t (idx ++ [k])) (seq 0 d)))
  end.

(** [t.unsqueeze(-1)] *)
Definition unsqueeze_last (t : Tensor) : Tensor :=
  mkTensor (shape t ++ [1%nat]) (fun idx => elem t (removelast idx)).

(** [t.repeat(n, 1)]: a tensor of at most two dimensions is read as a matrix
    (missing leading dimensions have size 1) and tiled [n] times along its
    rows; more than two dimensions are refused. *)
Definition repeat (t : Tensor) (n : nat) : result Tensor :=
  match shape t with
  | [] => Ok (mkTensor [n; 1%nat] (fun _ => elem t []))
  | [d] => Ok (mkTensor [n; d] (fun idx => elem t [nth 1 idx O]))
  | [r; d] =>
      Ok (mkTensor [(n * r)%nat; d]
            (fun idx => elem t [(nth 0 idx O mod r)%nat; nth 1 idx O]))
  | _ => Err RuntimeError
  end.

(** [torch.tensor(0.0)] and tensors given by their rows. *)
Definition scalar (x : R) : Tensor := mkTensor [] (fun _ => x).

Definition of_list (l : list R) : Tensor :=
  mkTensor [length l] (fun idx => nth (nth 0 idx O) l 0).

Definition of_rows (d : nat) (rows : list (list R)) : Tensor :=
  mkTensor [length rows; d]
    (fun idx => nth (nth 1 idx O) (nth (nth 0 idx O) rows []) 0).

(** *** [torch.distributions.Normal] *)

Record Normal : Type := mkNormal {
  loc : Tensor;
  scale : Tensor
}.

(** [Normal(loc, scale)]: the parameters are broadcast against each other.
    The constructor also checks that the scale is positive.  Over the reals
    the exponential that [act] passes always is; in floating point it can
    underflow to 0 and the constructor then raises.  That check is not part
    of this definition, so the properties of [act] below say what a call
    that returned has produced, and none says that a call returns. *)
Definition Normal_new (l s : Tensor) : result Normal :=
  match broadcast_tensors l s with
  | Err e => Err e
  | Ok (l', s') => Ok (mkNormal l' s')
  end.

Definition batch_shape (d : Normal) : list nat := shape (loc d).

(** [d.rsample()]: [loc + eps * scale], [eps] drawn per element. *)
Definition rsample (d : Normal) (noise : index -> R) : Tensor :=
  mkTensor (batch_shape d)
    (fun idx => elem (loc d) idx + noise idx * elem (scale d) idx).

(** The density of one element:
    [-((v - loc) ** 2) / (2 * scale ** 2) - log(scale) - log(sqrt(2 * pi))]. *)
Definition log_density (l s v : R) : R :=
  - ((v - l) ^ 2) / (2 * s ^ 2) - ln s - ln (sqrt (2 * PI)).

(** [d.log_prob(value)]: a value that does not broadcast to the batch shape
    is refused with a [ValueError] (whose message goes on with the two
    shapes). *)
Definition log_prob (d : Normal) (value : Tensor) : result Tensor :=
  match broadcast_shapes (shape value) (batch_shape d) with
  | None =>
      Err (ValueError "Value is not broadcastable with batch_shape+event_shape")
  | Some sh =>
      let v := expand value sh in
      let l := expand (loc d) sh in
      let s := expand (scale d) sh in
      Ok (mkTensor sh
            (fun idx => log_density (elem l idx) (elem s idx) (elem v idx)))
  end.

(** [d.entropy()]: [0.5 + 0.5 * log(2 * pi) + log(scale)]. *)
Definition entropy (d : Normal) : Tensor :=
  tmap (fun s => 0.5 + 0.5 * ln (2 * PI) + ln s) (scale d).

End Torch.

(** ** The model *)

Import Torch.

(** A [gym.Space].  [low] and [high] are instance attributes: a [Box] has
    them, other spaces (a [Discrete], say) do not. *)
Record GymSpace : Type := mkGymSpace {
  low : option Tensor;
  high : option Tensor
}.

(** [Union[int, Sequence[int], gym.Space]] *)
Inductive Space : Type :=
| SpaceInt (n : nat)
| SpaceSeq (l : list nat)
| SpaceGym (g : GymSpace).

(** [issubclass(type(space), gym.Space)] *)
Definition is_gym_space (s : Space) : bool :=
  match s with SpaceGym _ => true | _ => false end.

(** [space.low] and [space.high] *)
Definition get_low (s : Space) : result Tensor :=
  match s with
  | SpaceGym (mkGymSpace (Some l) _) => Ok l
  | _ => Err (AttributeError "low")
  end.

Definition get_high (s : Space) : result Tensor :=
  match s with
  | SpaceGym (mkGymSpace _ (Some h)) => Ok h
  | _ => Err (AttributeError "high")
  end.

(** The base class [Model], as [GaussianModel] uses it once
    [super().__init__(observation_space, action_space, device)] has returned:
    the stored action space and device, the mean/log-std provider [compute]
    of the subclass, and the instantiator hook. *)
Record Model : Type := mkModel {
  action_space : Space;
  device : string;
  compute : Tensor -> option Tensor -> string -> result (Tensor * Tensor);
  _instantiator_net_is_None : bool;
  _get_instantiator_output : Tensor -> option Tensor -> result (Tensor * Tensor)
}.

Record GaussianModel : Type := mkGaussianModel {
  base : Model;
  clip_actions : bool;
  clip_actions_min : option Tensor;
  clip_actions_max : option Tensor;
  _backward_compatibility : option bool;
  clip_log_std : bool;
  log_std_min : R;
  log_std_max : R;
  _log_std : option Tensor;
  _num_samples : option nat;
  _distribution : option Normal;
  _reduction : option reduction_fn
}.

(** [tuple(map(int, torch.__version__.split(".")[:2])) < (1, 9)] *)
Definition version_lt_1_9 (v : nat * nat) : bool :=
  let '(major, minor) := v in
  (major <? 1)%nat || ((major =? 1)%nat && (minor <? 9)%nat).

Definition reduction_names : list string :=
  ["mean"; "sum"; "prod"; "none"]%string.

Definition reduction_error : exn :=
  ValueError "reduction must be one of 'mean', 'sum', 'prod' or 'none'".

(** [torch.mean if reduction == "mean" else torch.sum if reduction == "sum"
    else torch.prod if reduction == "prod" else None] *)
Definition reduction_of (reduction : string) : option reduction_fn :=
  if String.eqb reduction "mean" then Some torch_mean
  else if String.eqb reduction "sum" then Some torch_sum
  else if String.eqb reduction "prod" then Some torch_prod
  else None.

Definition __init__ (self : Model) (torch_version : nat * nat)
    (clip_actions : bool) (clip_log_std : bool)
    (min_log_std max_log_std : R) (reduction : string) : result GaussianModel :=
  let clip_actions := clip_actions && is_gym_space (action_space self) in
  let bounds :=
    if clip_actions then
      match get_low (action_space self) with
      | Err e => Err e
      | Ok l =>
          match get_high (action_space self) with
          | Err e => Err e
          | Ok h => Ok (Some l, Some h, Some (version_lt_1_9 torch_version))
          end
      end
    else Ok (None, None, None) in
  match bounds with
  | Err e => Err e
  | Ok (cmin, cmax, compat) =>
      if negb (existsb (String.eqb reduction) reduction_names)
      then Err reduction_error
      else
        Ok (mkGaussianModel self clip_actions cmin cmax compat
              clip_log_std min_log_std max_log_std
              None None None
              (reduction_of reduction))
  end.

(** *** The state-and-exception monad of the methods *)

Definition M (A : Type) : Type := GaussianModel -> GaussianModel * result A.

Definition ret {A : Type} (a : A) : M A := fun self => (self, Ok a).

Definition bind {A B : Type} (m : M A) (f : A -> M B) : M B :=
  fun self =>
    match m self with
    | (self', Ok a) => f a self'
    | (self', Err e) => (self', Err e)
    end.

Definition lift {A : Type} (r : result A) : M A := fun self => (self, r).

Definition get : M GaussianModel := fun self => (self, Ok self).

Declare Scope py_scope.
Delimit Scope py_scope with py.

Notation "x <- c ;; k" := (bind c (fun x => k))
  (at level 100, c at next level, right associativity) : py_scope.
Notation "c ;;; k" := (bind c (fun _ => k))
  (at level 100, right associativity) : py_scope.

(** [self._log_std = v], [self._num_samples = v], [self._distribution = v] *)
Definition set_log_std (v : Tensor) : M unit :=
  fun self =>
    (mkGaussianModel (base self) (clip_actions self) (clip_actions_min self)
       (clip_actions_max self) (_backward_compatibility self)
       (clip_log_std self) (log_std_min self) (log_std_max self)
       (Some v) (_num_samples self) (_distribution self) (_reduction self),
     Ok tt).

Definition set_num_samples (v : nat) : M unit :=
  fun self =>
    (mkGaussianModel (base self) (clip_actions self) (clip_actions_min self)
       (clip_actions_max self) (_backward_compatibility self)
       (clip_log_std self) (log_std_min self) (log_std_max self)
       (_log_std self) (Some v) (_distribution self) (_reduction self),
     Ok tt).

Definition set_distribution (v : Normal) : M unit :=
  fun self =>
    (mkGaussianModel (base self) (clip_actions self) (clip_actions_min self)
       (clip_actions_max self) (_backward_compatibility self)
       (clip_log_std self) (log_std_min self) (log_std_max self)
       (_log_std self) (_num_samples self) (Some v) (_reduction self),
     Ok tt).

(** Reading an attribute that [__init__] sets only when clipping is on. *)
Definition attr {A : Type} (name : string) (o : option A) : result A :=
  match o with
  | Some a => Ok a
  | None => Err (AttributeError name)
  end.

(** The mean/log-std provider: [self.compute] or, when a network was
    instantiated, [self._get_instantiator_output]. *)
Definition provider (self : GaussianModel) (states : Tensor)
    (taken_actions : option Tensor) (role : string)
  : result (Tensor * Tensor) :=
  let dev := device (base self) in
  if _instantiator_net_is_None (base self)
  then compute (base self) (to states dev)
         (option_map (fun t => to t dev) taken_actions) role
  else _get_instantiator_output (base self) (to states dev)
         (option_map (fun t => to t dev) taken_actions).

(** The clipping of the sampled actions to the action space. *)
Definition clip (self : GaussianModel) (actions : Tensor) : result Tensor :=
  if clip_actions self then
    match attr "_backward_compatibility" (_backward_compatibility self) with
    | Err e => Err e
    | Ok true =>
        match attr "clip_actions_max" (clip_actions_max self) with
        | Err e => Err e
        | Ok cmax =>
            match tmin actions cmax with
            | Err e => Err e
            | Ok a =>
                match attr "clip_actions_min" (clip_actions_min self) with
                | Err e => Err e
                | Ok cmin => tmax a cmin
                end
            end
        end
    | Ok false =>
        match attr "clip_actions_min" (clip_actions_min self) with
        | Err e => Err e
        | Ok cmin =>
            match attr "clip_actions_max" (clip_actions_max self) with
            | Err e => Err e
            | Ok cmax => clamp_tensor actions cmin cmax
            end
        end
    end
  else Ok actions.

(** The reduction of the log-density and the trailing dimension. *)
Definition reduce (self : GaussianModel) (log_prob : Tensor) : Tensor :=
  match _reduction self with
  | Some f => reduce_last f log_prob
  | None => log_prob
  end.

Definition fix_dim (log_prob actions : Tensor) : Tensor :=
  if negb (dim log_prob =? dim actions)%nat
  then unsqueeze_last log_prob
  else log_prob.

Open Scope py_scope.

Definition act (states : Tensor) (taken_actions : option Tensor)
    (inference : bool) (role : string) (noise : index -> R)
  : M (Tensor * Tensor * Tensor) :=
  self <- get ;;
  out <- lift (provider self states taken_actions role) ;;
  let '(actions_mean, log_std) := out in
  let log_std :=
    if clip_log_std self
    then clamp log_std (log_std_min self) (log_std_max self)
    else log_std in
  set_log_std log_std ;;;
  n <- lift (shape0 actions_mean) ;;
  set_num_samples n ;;;
  d <- lift (Normal_new actions_mean (texp log_std)) ;;
  set_distribution d ;;;
  let actions := rsample d noise in
  actions <- lift (clip self actions) ;;
  log_prob <- lift (log_prob d
                      (match taken_actions with
                       | None => actions
                       | Some t => t
                       end)) ;;
  let log_prob := reduce self log_prob in
  let log_prob := fix_dim log_prob actions in
  if inference
  then ret (detach actions, detach log_prob, detach actions_mean)
  else ret (actions, log_prob, actions_mean).

Close Scope py_scope.

Definition get_entropy (self : GaussianModel) : Tensor :=
  match _distribution self with
  | None => scalar 0.0
  | Some d => to (entropy d) (device (base self))
  end.

Definition get_log_std (self : GaussianModel) : result Tensor :=
  match attr "repeat" (_log_std self) with
  | Err e => Err e
  | Ok log_std =>
      match _num_samples self with
      | None => Err TypeError
      | Some n => repeat log_std n
      end
  end.

Definition distribution (self : GaussianModel) : option Normal :=
  _distribution self.

(** ** The steps of [act] *)

(** The log-std that [act] records and exponentiates. *)
Definition used_log_std (self : GaussianModel) (log_std : Tensor) : Tensor :=
  if clip_log_std self
  then clamp log_std (log_std_min self) (log_std_max self)
  else log_std.

(** The instance after a call of [act] that ran to its end. *)
Definition recorded (self : GaussianModel) (log_std : Tensor) (n : nat)
    (d : Normal) : GaussianModel :=
  mkGaussianModel (base self) (clip_actions self) (clip_actions_min self)
    (clip_actions_max self) (_backward_compatibility self)
    (clip_log_std self) (log_std_min self) (log_std_max self)
    (Some log_std) (Some n) (Some d) (_reduction self).

(** The tensor whose log-density [act] evaluates. *)
Definition evaluated (taken_actions : option Tensor) (actions : Tensor)
  : Tensor :=
  match taken_actions with
  | None => actions
  | Some t => t
  end.

(** An expanded position is read at 0 only where the source has size 1, so a
    position of size 1 in the broadcast shape has size 1 in both sources. *)
Fixpoint dominated (rs rsh : list nat) : Prop :=
  match rs, rsh with
  | [], _ => True
  | d :: rs', d' :: rsh' => (d' = 1%nat -> d = 1%nat) /\ dominated rs' rsh'
  | _ :: _, [] => False
  end.

(** ** Instances in use *)

(** The configuration of an instance: everything but the three fields that
    [act] overwrites. *)
Definition config (self : GaussianModel) :=
  (base self, clip_actions self, clip_actions_min self, clip_actions_max self,
   _backward_compatibility self, clip_log_std self, log_std_min self,
   log_std_max self, _reduction self).

(** [reachable self0 self]: [self] is [self0] after any number of calls of
    [act], whether they returned or raised. *)
Inductive reachable (self0 : GaussianModel) : GaussianModel -> Prop :=
| reach_init : reachable self0 self0
| reach_act self states taken inference role noise self' r :
    reachable self0 self ->
    act states taken inference role noise self = (self', r) ->
    reachable self0 self'.

(** The attributes that [__init__] sets when clipping is on are there. *)
Definition clip_attrs_set (self : GaussianModel) : Prop :=
  clip_actions self = true ->
  exists lo hi compat,
    clip_actions_min self = Some lo /\
    clip_actions_max self = Some hi /\
    _backward_compatibility self = Some compat.

(** [t] broadcasts to the shape [sh] without enlarging it. *)
Definition fits (sh : list nat) (t : Tensor) : Prop :=
  broadcast_shapes sh (shape t) = Some sh.

Definition bounds_fit (self : GaussianModel) (sh : list nat) : Prop :=
  (forall lo, clip_actions_min self = Some lo -> fits sh lo) /\
  (forall hi, clip_actions_max self = Some hi -> fits sh hi).

Definition taken_fits (taken_actions : option Tensor) (sh : list nat) : Prop :=
  forall t, taken_actions = Some t -> fits sh t.

(** The bounds that [__init__] reads when clipping is on can be read. *)
Definition bounds_readable (self : Model) (clip_actions : bool) : Prop :=
  clip_actions && is_gym_space (action_space self) = true ->
  exists l h,
    get_low (action_space self) = Ok l /\ get_high (action_space self) = Ok h.

(** The quoted [name] occurs in [msg]. *)
Definition quoted_in (name msg : string) : bool :=
  match String.index 0 ("'" ++ name ++ "'") msg with
  | Some _ => true
  | None => false
  end.

(** ** Example instances *)

Definition no_instantiator (states : Tensor) (taken_actions : option Tensor)
  : result (Tensor * Tensor) :=
  Err (ProviderError "no instantiator network").

(** A model whose [compute] is [f], over the action space [space]. *)
Definition model_of (space : Space)
    (f : Tensor -> option Tensor -> string -> result (Tensor * Tensor))
  : Model :=
  mkModel space "cuda:0" f true no_instantiator.

(** A provider that returns the same mean and log-std on every call. *)
Definition constant_provider (mean log_std : Tensor)
    (states : Tensor) (taken_actions : option Tensor) (role : string)
  : result (Tensor * Tensor) :=
  Ok (mean, log_std).

(** A provider whose mean is the supplied actions. *)
Definition echo_provider
    (states : Tensor) (taken_actions : option Tensor) (role : string)
  : result (Tensor * Tensor) :=
  Ok (match taken_actions with
      | Some t => t
      | None => of_rows 1 [[0]]
      end,
      of_list [0]).

(** One observation, and two, of dimension 4. *)
Definition obs1 : Tensor := of_rows 4 [[0; 0; 0; 0]].
Definition obs2 : Tensor := of_rows 4 [[0; 0; 0; 0]; [0; 0; 0; 0]].

Definition zero_noise (idx : index) : R := 0.
Definition five_noise (idx : index) : R := 5.

(** The noise [[1.0, -1.0]] on every row. *)
Definition unit_noise (idx : index) : R :=
  match nth 1 idx O with
  | O => 1
  | _ => -1
  end.

(** The unit Gaussian on two action dimensions, with the default
    configuration, over a raw action size. *)
Definition unit_policy : GaussianModel :=
  mkGaussianModel
    (model_of (SpaceInt 2)
       (constant_provider (of_rows 2 [[0; 0]]) (of_list [0; 0])))
    false None None None true (-20) 2 None None None (Some torch_sum).

(** A provider whose log-std is far outside [[-20, 2]]. *)
Definition wide_policy : GaussianModel :=
  mkGaussianModel
    (model_of (SpaceInt 2)
       (constant_provider (of_rows 2 [[0; 0]]) (of_list [1000; -1000])))
    false None None None true (-20) 2 None None None (Some torch_sum).

(** A [Box] with bounds [low = [-1, -1]], [high = [1, 1]], and a provider of
    mean 5 on both dimensions; clipping is on. *)
Definition box_space : Space :=
  SpaceGym (mkGymSpace (Some (of_list [-1; -1])) (Some (of_list [1; 1]))).

Definition box_model : Model :=
  model_of box_space
    (constant_provider (of_rows 2 [[5; 5]]) (of_list [0; 0])).

Definition box_policy : GaussianModel :=
  mkGaussianModel box_model
    true (Some (of_list [-1; -1])) (Some (of_list [1; 1])) (Some false)
    true (-20) 2 None None None (Some torch_sum).

(** A [gym.Space] without [low] and [high], such as a [Discrete]. *)
Definition discrete_space : Space := SpaceGym (mkGymSpace None None).

(** A provider whose log-std has the shape of the batch, [[2, 1]]. *)
Definition batched_policy : GaussianModel :=
  mkGaussianModel
    (model_of (SpaceInt 1)
       (constant_provider (of_rows 1 [[0]; [0]]) (of_rows 1 [[0]; [0]])))
    false None None None true (-20) 2 None None None (Some torch_sum).

Definition echo_policy : GaussianModel :=
  mkGaussianModel (model_of (SpaceInt 1) echo_provider)
    false None None None true (-20) 2 None None None (Some torch_sum).

(** ** The transient state *)

(** What the three fields that [act] overwrites tell about each other: a
    distribution is there only with a sample count, a sample count only with
    a log-std, and the distribution has one shape and positive scales. *)
Definition transient_consistent (self : GaussianModel) : Prop :=
  (forall d, _distribution self = Some d ->
     exists n, _num_samples self = Some n) /\
  (forall n, _num_samples self = Some n ->
     exists L, _log_std self = Some L) /\
  (forall d, _distribution self = Some d ->
     shape (loc d) = shape (scale d) /\
     forall idx, 0 < elem (scale d) idx).

(** ** More example instances *)

Definition failing_provider
    (states : Tensor) (taken_actions : option Tensor) (role : string)
  : result (Tensor * Tensor) :=
  Err (ProviderError "compute failed").

Definition policy_of (m : Model) (clip_log_std : bool) : GaussianModel :=
  mkGaussianModel m false None None None clip_log_std (-20) 2
    None None None (Some torch_sum).

Definition failing_policy : GaussianModel :=
  policy_of (model_of (SpaceInt 2) failing_provider) true.

(** A provider whose mean has no dimension. *)
Definition scalar_mean_policy : GaussianModel :=
  policy_of
    (model_of (SpaceInt 1) (constant_provider (scalar 0) (of_list [0]))) true.

(** A provider whose mean [[1, 2]] and log-std [[3]] do not broadcast. *)
Definition mismatch_policy : GaussianModel :=
  policy_of
    (model_of (SpaceInt 2)
       (constant_provider (of_rows 2 [[0; 0]]) (of_list [0; 0; 0]))) true.

(** The log-std far outside [[-20, 2]], without clipping of the log-std. *)
Definition raw_policy : GaussianModel :=
  policy_of
    (model_of (SpaceInt 2)
       (constant_provider (of_rows 2 [[0; 0]]) (of_list [1000; -1000]))) false.

(** The box policy on a torch older than 1.9. *)
Definition old_box_policy : GaussianModel :=
  mkGaussianModel box_model
    true (Some (of_list [-1; -1])) (Some (of_list [1; 1])) (Some true)
    true (-20) 2 None None None (Some torch_sum).

(** Bounds given the wrong way round, [low = [1, 1]] and [high = [-1, -1]],
    on a torch older than 1.9 and on a newer one. *)
Definition crossed_policy (compat : bool) : GaussianModel :=
  mkGaussianModel
    (model_of
       (SpaceGym (mkGymSpace (Some (of_list [1; 1])) (Some (of_list [-1; -1]))))
       (constant_provider (of_rows 2 [[0; 0]]) (of_list [0; 0])))
    true (Some (of_list [1; 1])) (Some (of_list [-1; -1])) (Some compat)
    true (-20) 2 None None None (Some torch_sum).

(** A model with an instantiated network; its [compute] raises. *)
Definition instantiated_policy : GaussianModel :=
  policy_of
    (mkModel (SpaceInt 2) "cuda:0" failing_provider false
       (fun _ _ => Ok (of_rows 2 [[0; 0]], of_list [0; 0]))) true.

(** Providers whose log-std has no dimension, and three dimensions. *)
Definition scalar_log_std_policy : GaussianModel :=
  policy_of
    (model_of (SpaceInt 2) (constant_provider (of_rows 2 [[0; 0]]) (scalar 0)))
    true.

Definition rank3_policy : GaussianModel :=
  policy_of
    (model_of (SpaceInt 1)
       (constant_provider (mkTensor [1; 1; 1]%nat (fun _ => 0))
          (mkTensor [1; 1; 1]%nat (fun _ => 0)))) true.

(** The unit Gaussian without reduction of the log-probability. *)
Definition unreduced_policy : GaussianModel :=
  mkGaussianModel
    (model_of (SpaceInt 2)
       (constant_provider (of_rows 2 [[0; 0]]) (of_list [0; 0])))
    false None None None true (-20) 2 None None None None.

(** A provider whose mean has one dimension, [[2]]. *)
Definition flat_policy : GaussianModel :=
  policy_of
    (model_of (SpaceInt 2) (constant_provider (of_list [0; 0]) (of_list [0; 0])))
    true.

(** * Properties *)

(** ** What one call of [act] does *)

Lemma act_run self states taken inference role noise mean ls n d a lp :
  provider self states taken role = Ok (mean, ls) ->
  shape0 mean = Ok n ->
  Normal_new mean (texp (used_log_std self ls)) = Ok d ->
  clip self (rsample d noise) = Ok a ->
  log_prob d (evaluated taken a) = Ok lp ->
  act states taken inference role noise self =
  (recorded self (used_log_std self ls) n d,
   Ok (a, fix_dim (reduce self lp) a, mean)).
Proof.
  intros Hp Hn Hd Ha Hlp.
  unfold act, bind, get, lift, set_log_std, set_num_samples, set_distribution.
  rewrite Hp. fold (used_log_std self ls). cbn.
  rewrite Hn, Hd. cbn.
  rewrite Ha. unfold evaluated in Hlp. rewrite Hlp.
  destruct inference; reflexivity.
Qed.

Lemma act_inv self states taken inference role noise self' a lp mu :
  act states taken inference role noise self = (self', Ok (a, lp, mu)) ->
  exists ls n d lp0,
    provider self states taken role = Ok (mu, ls) /\
    shape0 mu = Ok n /\
    Normal_new mu (texp (used_log_std self ls)) = Ok d /\
    clip self (rsample d noise) = Ok a /\
    log_prob d (evaluated taken a) = Ok lp0 /\
    lp = fix_dim (reduce self lp0) a /\
    self' = recorded self (used_log_std self ls) n d.
Proof.
  unfold act, bind, get, lift, set_log_std, set_num_samples, set_distribution.
  destruct (provider self states taken role) as [[mean ls]|e] eqn:Hp;
    [|discriminate].
  fold (used_log_std self ls). cbn.
  destruct (shape0 mean) as [n|e] eqn:Hn; [|discriminate].
  destruct (Normal_new mean (texp (used_log_std self ls))) as [d|e] eqn:Hd;
    [|discriminate].
  cbn.
  destruct (clip self (rsample d noise)) as [a0|e] eqn:Ha; [|discriminate].
  fold (evaluated taken a0).
  destruct (log_prob d (evaluated taken a0)) as [lp0|e] eqn:Hlp;
    [|discriminate].
  intros H.
  assert (H' : self' = recorded self (used_log_std self ls) n d /\
               a = a0 /\ lp = fix_dim (reduce self lp0) a0 /\ mu = mean).
  { destruct inference; inversion H; subst; unfold detach; auto. }
  destruct H' as (-> & -> & -> & ->).
  exists ls, n, d, lp0. auto 10.
Qed.

(** ** Broadcasting *)

Lemma bshape_rev_refl r : bshape_rev r r = Some r.
Proof.
  induction r as [|d r IH]; cbn; [reflexivity|].
  rewrite IH, Nat.eqb_refl. reflexivity.
Qed.

Lemma bshape_rev_comm r1 : forall r2, bshape_rev r1 r2 = bshape_rev r2 r1.
Proof.
  induction r1 as [|d1 r1 IH]; intros [|d2 r2]; cbn; try reflexivity.
  rewrite (IH r2). destruct (bshape_rev r2 r1) as [t|]; [|reflexivity].
  rewrite (Nat.eqb_sym d2 d1).
  destruct (d1 =? d2)%nat eqn:E.
  - apply Nat.eqb_eq in E. subst. reflexivity.
  - destruct (d1 =? 1)%nat eqn:E1, (d2 =? 1)%nat eqn:E2; try reflexivity.
    apply Nat.eqb_eq in E1, E2. subst. rewrite Nat.eqb_refl in E. discriminate.
Qed.

Lemma broadcast_shapes_refl sh : broadcast_shapes sh sh = Some sh.
Proof.
  unfold broadcast_shapes. rewrite bshape_rev_refl. cbn.
  rewrite rev_involutive. reflexivity.
Qed.

Lemma broadcast_shapes_comm s1 s2 :
  broadcast_shapes s1 s2 = broadcast_shapes s2 s1.
Proof.
  unfold broadcast_shapes. rewrite bshape_rev_comm. reflexivity.
Qed.

Lemma dominated_refl r : dominated r r.
Proof. induction r; cbn; auto. Qed.

Lemma bshape_rev_dominated r1 : forall r2 r,
  bshape_rev r1 r2 = Some r -> dominated r1 r /\ dominated r2 r.
Proof.
  induction r1 as [|d1 r1 IH]; intros [|d2 r2] r; cbn.
  - intros [= <-]. auto.
  - intros [= <-]. split; [exact I|]. split; [auto|apply dominated_refl].
  - intros [= <-]. split; [|exact I]. split; [auto|apply dominated_refl].
  - destruct (bshape_rev r1 r2) as [t|] eqn:Ht; [|discriminate].
    destruct (IH _ _ Ht) as [H1 H2].
    destruct (d1 =? d2)%nat eqn:E.
    { apply Nat.eqb_eq in E. subst. intros [= <-]. cbn. auto. }
    destruct (d1 =? 1)%nat eqn:E1.
    { apply Nat.eqb_eq in E1. subst. intros [= <-]. cbn.
      apply Nat.eqb_neq in E. repeat split; auto; intros ->; congruence. }
    destruct (d2 =? 1)%nat eqn:E2; [|discriminate].
    apply Nat.eqb_eq in E2. subst. intros [= <-]. cbn.
    apply Nat.eqb_neq in E1. repeat split; auto; intros ->; congruence.
Qed.

Lemma bindex_rev_dominated rs : forall rsh ridx,
  dominated rs rsh ->
  bindex_rev rs (bindex_rev rsh ridx) = bindex_rev rs ridx.
Proof.
  induction rs as [|d rs IH]; intros rsh ridx H; [reflexivity|].
  destruct rsh as [|d' rsh]; [destruct H|].
  destruct H as [Hd H]. destruct ridx as [|i ridx]; [reflexivity|].
  cbn. rewrite (IH _ _ H). f_equal.
  destruct (d =? 1)%nat eqn:E; [reflexivity|].
  destruct (d' =? 1)%nat eqn:E'; [|reflexivity].
  apply Nat.eqb_eq in E'. apply Hd in E'. subst. discriminate.
Qed.

(** Reading through two expansions is reading through one. *)
Lemma bindex_compose_l s1 s2 sh idx :
  broadcast_shapes s1 s2 = Some sh ->
  bindex s1 (bindex sh idx) = bindex s1 idx.
Proof.
  unfold broadcast_shapes, bindex. intros H.
  destruct (bshape_rev (rev s1) (rev s2)) as [r|] eqn:Hr; [|discriminate].
  cbn in H. injection H as <-. rewrite !rev_involutive.
  destruct (bshape_rev_dominated _ _ _ Hr) as [H1 _].
  rewrite (bindex_rev_dominated _ _ _ H1). reflexivity.
Qed.

Lemma bindex_compose_r s1 s2 sh idx :
  broadcast_shapes s1 s2 = Some sh ->
  bindex s2 (bindex sh idx) = bindex s2 idx.
Proof.
  rewrite broadcast_shapes_comm. apply bindex_compose_l.
Qed.

Lemma bindex_rev_in_bounds ridx : forall rsh,
  Forall2 lt ridx rsh -> bindex_rev rsh ridx = ridx.
Proof.
  induction ridx as [|i ridx IH]; intros rsh H; inversion H; subst; cbn.
  - reflexivity.
  - rewrite (IH _ H4). f_equal.
    destruct (y =? 1)%nat eqn:E; [|reflexivity].
    apply Nat.eqb_eq in E. lia.
Qed.

Lemma Forall2_lt_rev (l1 l2 : list nat) :
  Forall2 lt l1 l2 -> Forall2 lt (rev l1) (rev l2).
Proof.
  induction 1 as [|x y l1 l2 Hxy _ IH]; cbn; [constructor|].
  apply Forall2_app; [exact IH|]. constructor; [exact Hxy|constructor].
Qed.

(** An in-bounds index is read where it stands. *)
Lemma bindex_in_bounds sh idx : in_bounds idx sh -> bindex sh idx = idx.
Proof.
  unfold in_bounds, bindex. intros H.
  rewrite bindex_rev_in_bounds.
  - apply rev_involutive.
  - apply Forall2_lt_rev. exact H.
Qed.

Lemma bshape_rev_in_bounds r1 : forall r2 rsh ridx,
  bshape_rev r1 r2 = Some rsh ->
  Forall2 lt ridx rsh ->
  Forall2 lt (bindex_rev r1 ridx) r1.
Proof.
  induction r1 as [|d1 r1 IH]; intros r2 rsh ridx Hb Hin; [constructor|].
  destruct r2 as [|d2 r2].
  - cbn in Hb. injection Hb as <-.
    rewrite (bindex_rev_in_bounds _ _ Hin). exact Hin.
  - cbn in Hb. destruct (bshape_rev r1 r2) as [t|] eqn:Ht; [|discriminate].
    assert (Hd : exists d, rsh = d :: t /\ (d1 <> 1%nat -> d = d1)).
    { destruct (d1 =? d2)%nat eqn:E.
      { injection Hb as <-. eauto. }
      destruct (d1 =? 1)%nat eqn:E1.
      { apply Nat.eqb_eq in E1. injection Hb as <-.
        exists d2. split; [reflexivity|]. intros Hne. contradiction. }
      destruct (d2 =? 1)%nat; [|discriminate].
      injection Hb as <-. eauto. }
    destruct Hd as (d & -> & Hd).
    inversion Hin as [|i d' ridx' t' Hi Hin']; subst. cbn.
    constructor; [|exact (IH _ _ _ Ht Hin')].
    destruct (d1 =? 1)%nat eqn:E1.
    + apply Nat.eqb_eq in E1. lia.
    + apply Nat.eqb_neq in E1. rewrite <- (Hd E1). exact Hi.
Qed.

(** The source index of an in-bounds element is in bounds of the source. *)
Lemma bindex_bounds_l s1 s2 sh idx :
  broadcast_shapes s1 s2 = Some sh ->
  in_bounds idx sh -> in_bounds (bindex s1 idx) s1.
Proof.
  unfold broadcast_shapes, in_bounds, bindex. intros H Hin.
  destruct (bshape_rev (rev s1) (rev s2)) as [r|] eqn:Hr; [|discriminate].
  cbn in H. injection H as <-.
  apply Forall2_lt_rev in Hin. rewrite rev_involutive in Hin.
  pose proof (bshape_rev_in_bounds _ _ _ _ Hr Hin) as Hs.
  apply Forall2_lt_rev in Hs. rewrite rev_involutive in Hs. exact Hs.
Qed.

Lemma bindex_bounds_r s1 s2 sh idx :
  broadcast_shapes s1 s2 = Some sh ->
  in_bounds idx sh -> in_bounds (bindex s2 idx) s2.
Proof.
  rewrite broadcast_shapes_comm. apply bindex_bounds_l.
Qed.

(** ** Construction and configuration *)

Lemma init_inv self v ca cls lo hi red self0 :
  __init__ self v ca cls lo hi red = Ok self0 ->
  existsb (String.eqb red) reduction_names = true /\
  exists cmin cmax compat,
    self0 = mkGaussianModel self (ca && is_gym_space (action_space self))
              cmin cmax compat cls lo hi None None None (reduction_of red) /\
    ((ca && is_gym_space (action_space self) = true /\
      exists l h, get_low (action_space self) = Ok l /\
                  get_high (action_space self) = Ok h /\
                  cmin = Some l /\ cmax = Some h /\
                  compat = Some (version_lt_1_9 v)) \/
     (ca && is_gym_space (action_space self) = false /\
      cmin = None /\ cmax = None /\ compat = None)).
Proof.
  unfold __init__.
  destruct (ca && is_gym_space (action_space self)) eqn:Hc.
  - destruct (get_low (action_space self)) as [l|e]; [|discriminate].
    destruct (get_high (action_space self)) as [h|e]; [|discriminate].
    destruct (existsb (String.eqb red) reduction_names); cbn; [|discriminate].
    intros [= <-]. split; [reflexivity|].
    exists (Some l), (Some h), (Some (version_lt_1_9 v)).
    split; [reflexivity|]. left. split; [reflexivity|]. exists l, h. auto.
  - destruct (existsb (String.eqb red) reduction_names); cbn; [|discriminate].
    intros [= <-]. split; [reflexivity|].
    exists None, None, None. split; [reflexivity|]. right. auto.
Qed.

Lemma act_config states taken inference role noise self self' r :
  act states taken inference role noise self = (self', r) ->
  config self' = config self.
Proof.
  unfold act, bind, get, lift, set_log_std, set_num_samples, set_distribution.
  destruct (provider self states taken role) as [[mean ls]|e];
    [|intros [= <- _]; reflexivity].
  cbn. destruct (shape0 mean) as [n|e]; [|intros [= <- _]; reflexivity].
  destruct (Normal_new mean _) as [d|e]; [|intros [= <- _]; reflexivity].
  cbn. destruct (clip self (rsample d noise)) as [a|e];
    [|intros [= <- _]; reflexivity].
  destruct (log_prob d _) as [lp|e]; [|intros [= <- _]; reflexivity].
  destruct inference; intros [= <- _]; reflexivity.
Qed.

Lemma reachable_config self0 self :
  reachable self0 self -> config self = config self0.
Proof.
  induction 1 as [|self states taken inference role noise self' r _ IH Hact].
  - reflexivity.
  - rewrite (act_config _ _ _ _ _ _ _ _ Hact). exact IH.
Qed.

Lemma init_clip_attrs_set self v ca cls lo hi red self0 :
  __init__ self v ca cls lo hi red = Ok self0 -> clip_attrs_set self0.
Proof.
  intros H. apply init_inv in H.
  destruct H as (_ & cmin & cmax & compat & -> & [(_ & l & h & _ & _ & -> & -> & ->)|(Hc & _)]);
    unfold clip_attrs_set; cbn.
  - intros _. exists l, h, (version_lt_1_9 v). auto.
  - rewrite Hc. discriminate.
Qed.

Lemma reachable_clip_attrs_set self0 self :
  clip_attrs_set self0 -> reachable self0 self -> clip_attrs_set self.
Proof.
  intros H0 Hr. apply reachable_config in Hr. unfold config in Hr.
  injection Hr as Hb Hc Hmin Hmax Hcompat _ _ _ _.
  unfold clip_attrs_set in *. rewrite Hc, Hmin, Hmax, Hcompat. exact H0.
Qed.

(** ** Shapes along [act] *)

Lemma shape_used_log_std self ls : shape (used_log_std self ls) = shape ls.
Proof. unfold used_log_std. destruct (clip_log_std self); reflexivity. Qed.

Lemma Normal_new_fits mean s sh :
  shape mean = sh -> fits sh s ->
  Normal_new mean s = Ok (mkNormal (expand mean sh) (expand s sh)).
Proof.
  unfold fits, Normal_new, broadcast_tensors. intros -> ->. reflexivity.
Qed.

Lemma tmap2_fits f x b sh :
  shape x = sh -> fits sh b ->
  exists a, tmap2 f x b = Ok a /\ shape a = sh /\
            forall idx, elem a idx =
                        f (elem x (bindex sh idx)) (elem b (bindex (shape b) idx)).
Proof.
  unfold fits, tmap2, broadcast_tensors. intros Hx Hb. rewrite Hx, Hb.
  eexists. split; [reflexivity|]. cbn. rewrite Hx. auto.
Qed.

Lemma clip_fits self x sh :
  clip_attrs_set self -> bounds_fit self sh -> shape x = sh ->
  exists a, clip self x = Ok a /\ shape a = sh.
Proof.
  intros Hset [Hlo Hhi] Hx. unfold clip.
  destruct (clip_actions self) eqn:Hc; [|eauto].
  destruct (Hset Hc) as (lo & hi & compat & Emin & Emax & Ecompat).
  rewrite Emin, Emax, Ecompat. cbn.
  specialize (Hlo _ Emin). specialize (Hhi _ Emax).
  destruct compat.
  - destruct (tmap2_fits Rmin x hi sh Hx Hhi) as (a1 & E1 & S1 & _).
    unfold tmin. rewrite E1.
    destruct (tmap2_fits Rmax a1 lo sh S1 Hlo) as (a2 & E2 & S2 & _).
    unfold tmax. rewrite E2. eauto.
  - unfold clamp_tensor.
    destruct (tmap2_fits Rmax x lo sh Hx Hlo) as (a1 & E1 & S1 & _).
    unfold tmax. rewrite E1.
    destruct (tmap2_fits Rmin a1 hi sh S1 Hhi) as (a2 & E2 & S2 & _).
    unfold tmin. rewrite E2. eauto.
Qed.

Lemma log_prob_fits d v sh :
  batch_shape d = sh -> fits sh v ->
  exists lp, log_prob d v = Ok lp /\ shape lp = sh.
Proof.
  unfold fits, log_prob. intros -> Hv.
  rewrite broadcast_shapes_comm, Hv. eauto.
Qed.

Lemma shape_reduce_last f t pre d :
  shape t = pre ++ [d] -> shape (reduce_last f t) = pre.
Proof.
  unfold reduce_last. intros ->. rewrite rev_app_distr. cbn.
  apply rev_involutive.
Qed.

Lemma shape_fix_dim_reduce self lp a N D :
  shape lp = [N; D] -> shape a = [N; D] ->
  shape (fix_dim (reduce self lp) a) =
  match _reduction self with
  | Some _ => [N; 1%nat]
  | None => [N; D]
  end.
Proof.
  intros Hlp Ha. unfold fix_dim, reduce, dim.
  destruct (_reduction self) as [f|].
  - rewrite (shape_reduce_last f lp [N] D Hlp), Ha. cbn.
    rewrite (shape_reduce_last f lp [N] D Hlp). reflexivity.
  - rewrite Hlp, Ha. cbn. exact Hlp.
Qed.

(** The shapes that a call of [act] that returned has produced. *)
Lemma act_returned_shapes
    self states taken inference role noise self' a lp mu ls sh :
  clip_attrs_set self ->
  act states taken inference role noise self = (self', Ok (a, lp, mu)) ->
  provider self states taken role = Ok (mu, ls) ->
  shape mu = sh ->
  fits sh ls ->
  taken_fits taken sh ->
  bounds_fit self sh ->
  exists lp0,
    lp = fix_dim (reduce self lp0) a /\ shape a = sh /\ shape lp0 = sh.
Proof.
  intros Hset Hact Hp Hm Hls Htaken Hb.
  destruct (act_inv _ _ _ _ _ _ _ _ _ _ Hact)
    as (ls' & n & d & lp0 & Hp' & _ & Hd & Ha & Hlp & -> & _).
  rewrite Hp in Hp'. injection Hp' as <-.
  rewrite (Normal_new_fits mu _ sh Hm) in Hd.
  2:{ unfold fits. cbn. rewrite shape_used_log_std. exact Hls. }
  injection Hd as <-.
  match type of Ha with clip self ?x = _ =>
    destruct (clip_fits self x sh Hset Hb eq_refl) as (a' & Ha' & Sa)
  end.
  rewrite Ha in Ha'. injection Ha' as <-.
  assert (Hv : fits sh (evaluated taken a)).
  { destruct taken as [t|]; cbn.
    - apply Htaken. reflexivity.
    - unfold fits. rewrite Sa. apply broadcast_shapes_refl. }
  match type of Hlp with log_prob ?d0 _ = _ =>
    destruct (log_prob_fits d0 (evaluated taken a) sh eq_refl Hv)
      as (lp0' & Hlp' & Slp)
  end.
  rewrite Hlp in Hlp'. injection Hlp' as <-.
  exists lp0. auto.
Qed.

(** ** Clamping of the log standard deviation *)

Lemma clamp_range x lo hi : lo <= hi -> lo <= Rmin (Rmax x lo) hi <= hi.
Proof.
  intros H. split.
  - apply Rmin_glb; [apply Rmax_r|exact H].
  - apply Rmin_r.
Qed.

Lemma clamp_inside x lo hi : lo <= x <= hi -> Rmin (Rmax x lo) hi = x.
Proof.
  intros [H1 H2]. rewrite Rmax_left by exact H1. apply Rmin_left. exact H2.
Qed.

Lemma act_records_log_std self states taken inference role noise mean ls self' r :
  provider self states taken role = Ok (mean, ls) ->
  act states taken inference role noise self = (self', r) ->
  _log_std self' = Some (used_log_std self ls).
Proof.
  intros Hp.
  unfold act, bind, get, lift, set_log_std, set_num_samples, set_distribution.
  rewrite Hp. fold (used_log_std self ls). cbn.
  destruct (shape0 mean) as [n|e]; [|intros [= <- _]; reflexivity].
  destruct (Normal_new mean _) as [d|e]; [|intros [= <- _]; reflexivity].
  cbn. destruct (clip self (rsample d noise)) as [a|e];
    [|intros [= <- _]; reflexivity].
  destruct (log_prob d _) as [lp|e]; [|intros [= <- _]; reflexivity].
  destruct inference; intros [= <- _]; reflexivity.
Qed.

(** C1.  With [clip_log_std] set (and [log_std_min <= log_std_max]), whatever
    log-std the provider returns, the log-std that [act] records in
    [_log_std] is the provider's clamped into [[log_std_min, log_std_max]]:
    each of its elements lies in that interval.  The clamp comes before the
    distribution: when [act] returns, [_distribution] is the Gaussian built
    from the mean and the exponential of that clamped log-std, so every scale
    is [exp x] for some [x] of the interval. *)
Theorem act_log_std_clamped
    self states taken inference role noise mean ls self' r :
  clip_log_std self = true ->
  log_std_min self <= log_std_max self ->
  provider self states taken role = Ok (mean, ls) ->
  act states taken inference role noise self = (self', r) ->
  let L := clamp ls (log_std_min self) (log_std_max self) in
  _log_std self' = Some L /\
  (forall idx, log_std_min self <= elem L idx <= log_std_max self) /\
  (forall a lp mu, r = Ok (a, lp, mu) ->
     exists d,
       Normal_new mean (texp L) = Ok d /\
       _distribution self' = Some d /\
       forall idx, exists x,
         log_std_min self <= x <= log_std_max self /\
         elem (scale d) idx = exp x).
Proof.
  intros Hclip Hle Hp Hact L.
  assert (HL : used_log_std self ls = L).
  { unfold used_log_std. rewrite Hclip. reflexivity. }
  assert (Hrange : forall idx,
             log_std_min self <= elem L idx <= log_std_max self).
  { intros idx. apply clamp_range. exact Hle. }
  split; [|split].
  - rewrite <- HL. eapply act_records_log_std; eauto.
  - exact Hrange.
  - intros a lp mu ->.
    destruct (act_inv _ _ _ _ _ _ _ _ _ _ Hact)
      as (ls' & n & d & lp0 & Hp' & _ & Hd & _ & _ & _ & ->).
    rewrite Hp in Hp'. injection Hp' as <- <-. rewrite HL in Hd.
    exists d. split; [exact Hd|]. split; [reflexivity|].
    intros idx. unfold Normal_new, broadcast_tensors in Hd.
    destruct (broadcast_shapes (shape mean) (shape (texp L))) as [sh|];
      [|discriminate].
    injection Hd as <-. cbn.
    exists (elem L (bindex (shape L) idx)). split; [apply Hrange|reflexivity].
Qed.

(** ** The evaluated action and the log-probability *)

Lemma config_clip s1 s2 x : config s1 = config s2 -> clip s1 x = clip s2 x.
Proof.
  unfold config. intros H. injection H as _ Hc Hmin Hmax Hcompat _ _ _ _.
  unfold clip. rewrite Hc, Hmin, Hmax, Hcompat. reflexivity.
Qed.

Lemma config_used_log_std s1 s2 ls :
  config s1 = config s2 -> used_log_std s1 ls = used_log_std s2 ls.
Proof.
  unfold config. intros H. injection H as _ _ _ _ _ Hcls Hlo Hhi _.
  unfold used_log_std. rewrite Hcls, Hlo, Hhi. reflexivity.
Qed.

(** C2, as amended.  When [act] returns, its log-probability is the reduced
    log-density, under the Gaussian built from the mean and the (clamped)
    log-std, of [taken_actions] when they are supplied and otherwise of the
    sampled action after the optional clamp.  For a fixed noise, a second
    call whose provider output is the same returns the same action and mean,
    whatever [taken_actions] it is given. *)
Theorem act_log_prob_evaluated
    self states taken inference role noise self' a lp mu :
  act states taken inference role noise self = (self', Ok (a, lp, mu)) ->
  (exists ls d lp0,
     provider self states taken role = Ok (mu, ls) /\
     Normal_new mu (texp (used_log_std self ls)) = Ok d /\
     _distribution self' = Some d /\
     clip self (rsample d noise) = Ok a /\
     log_prob d (match taken with Some t => t | None => a end) = Ok lp0 /\
     lp = fix_dim (reduce self lp0) a) /\
  (forall self2 states2 taken2 inference2 role2 self2' a2 lp2 mu2,
     config self2 = config self ->
     provider self2 states2 taken2 role2 = provider self states taken role ->
     act states2 taken2 inference2 role2 noise self2 =
       (self2', Ok (a2, lp2, mu2)) ->
     a2 = a /\ mu2 = mu).
Proof.
  intros Hact.
  destruct (act_inv _ _ _ _ _ _ _ _ _ _ Hact)
    as (ls & n & d & lp0 & Hp & Hn & Hd & Ha & Hlp & -> & ->).
  split.
  - exists ls, d, lp0. unfold evaluated in Hlp. auto 10.
  - intros self2 states2 taken2 inference2 role2 self2' a2 lp2 mu2 Hc Hp2 Hact2.
    destruct (act_inv _ _ _ _ _ _ _ _ _ _ Hact2)
      as (ls2 & n2 & d2 & lp02 & Hp2' & _ & Hd2 & Ha2 & _).
    rewrite Hp2, Hp in Hp2'. injection Hp2' as <- <-.
    rewrite (config_used_log_std _ _ _ Hc), Hd in Hd2. injection Hd2 as <-.
    rewrite (config_clip _ _ _ Hc), Ha in Ha2. injection Ha2 as <-.
    auto.
Qed.

Lemma reduction_of_none red :
  existsb (String.eqb red) reduction_names = true ->
  (red = "none"%string -> reduction_of red = None) /\
  (red <> "none"%string -> exists f, reduction_of red = Some f).
Proof.
  unfold reduction_names, reduction_of. cbn [existsb]. intros H. split.
  - intros ->. reflexivity.
  - intros Hne.
    destruct (String.eqb red "mean"); [eauto|].
    destruct (String.eqb red "sum"); [eauto|].
    destruct (String.eqb red "prod"); [eauto|].
    destruct (String.eqb red "none") eqn:E; [|discriminate].
    apply String.eqb_eq in E. contradiction.
Qed.

Lemma reachable_from_init self v ca cls lo hi red self0 s :
  __init__ self v ca cls lo hi red = Ok self0 ->
  reachable self0 s ->
  clip_attrs_set s /\ _reduction s = reduction_of red /\
  existsb (String.eqb red) reduction_names = true.
Proof.
  intros Hi Hr. split; [|split].
  - eapply reachable_clip_attrs_set; [|exact Hr].
    eapply init_clip_attrs_set. exact Hi.
  - apply reachable_config in Hr. unfold config in Hr.
    injection Hr as _ _ _ _ _ _ _ _ ->.
    apply init_inv in Hi. destruct Hi as (_ & ? & ? & ? & -> & _). reflexivity.
  - apply init_inv in Hi. apply Hi.
Qed.

(** C3.  On an instance built by [__init__] with reduction [red], for every
    batch of size [N] with action dimension [D] (mean of shape [[N, D]],
    log-std, supplied actions and action bounds broadcasting to that shape),
    the log-probability that [act] returns has shape [[N, 1]] when [red] is
    "sum", "mean" or "prod" and shape [[N, D]] when it is "none"; the action
    it returns has shape [[N, D]]. *)
Theorem act_log_prob_shape
    base0 v ca cls lo hi red self0 self states taken inference role noise
    self' a lp mu ls N D :
  __init__ base0 v ca cls lo hi red = Ok self0 ->
  reachable self0 self ->
  act states taken inference role noise self = (self', Ok (a, lp, mu)) ->
  provider self states taken role = Ok (mu, ls) ->
  shape mu = [N; D] ->
  fits [N; D] ls ->
  taken_fits taken [N; D] ->
  bounds_fit self [N; D] ->
  shape a = [N; D] /\
  (In red ["sum"; "mean"; "prod"]%string -> shape lp = [N; 1%nat]) /\
  (red = "none"%string -> shape lp = [N; D]).
Proof.
  intros Hi Hr Hact Hp Hm Hls Ht Hb.
  destruct (reachable_from_init _ _ _ _ _ _ _ _ _ Hi Hr) as (Hset & Hred & Hin).
  destruct (act_returned_shapes _ _ _ _ _ _ _ _ _ _ _ _
              Hset Hact Hp Hm Hls Ht Hb) as (lp0 & -> & Sa & Slp).
  split; [exact Sa|].
  rewrite (shape_fix_dim_reduce self lp0 a N D Slp Sa), Hred.
  destruct (reduction_of_none red Hin) as [Hnone Hsome]. split.
  - intros Hin3. destruct (Hsome) as [f ->]; [|reflexivity].
    cbn in Hin3. intros ->.
    destruct Hin3 as [E|[E|[E|[]]]]; discriminate.
  - intros E. rewrite (Hnone E). reflexivity.
Qed.

(** ** Clipping of the sampled actions *)

Lemma tmap2_elem f x b a :
  tmap2 f x b = Ok a ->
  exists sh,
    broadcast_shapes (shape x) (shape b) = Some sh /\
    shape a = sh /\
    forall idx, elem a idx =
                f (elem x (bindex (shape x) idx)) (elem b (bindex (shape b) idx)).
Proof.
  unfold tmap2, broadcast_tensors.
  destruct (broadcast_shapes (shape x) (shape b)) as [sh|]; [|discriminate].
  intros [= <-]. exists sh. cbn. auto.
Qed.

Lemma clip_within self x a lo hi :
  clip_actions self = true ->
  clip_actions_min self = Some lo ->
  clip_actions_max self = Some hi ->
  shape lo = shape hi ->
  (forall k, in_bounds k (shape lo) -> elem lo k <= elem hi k) ->
  clip self x = Ok a ->
  forall idx,
    in_bounds idx (shape a) ->
    elem lo (bindex (shape lo) idx) <= elem a idx <=
    elem hi (bindex (shape hi) idx).
Proof.
  intros Hc Emin Emax Hsh Hle. unfold clip. rewrite Hc, Emin, Emax.
  assert (Hb : forall idx,
             in_bounds (bindex (shape lo) idx) (shape lo) ->
             elem lo (bindex (shape lo) idx) <= elem hi (bindex (shape hi) idx)).
  { intros idx Hin. rewrite <- Hsh. apply Hle. exact Hin. }
  destruct (_backward_compatibility self) as [[|]|]; cbn; [| |discriminate].
  - destruct (tmin x hi) as [a1|] eqn:E1; [|discriminate].
    intros E2 idx Hin.
    apply tmap2_elem in E1. destruct E1 as (sh1 & B1 & S1 & V1).
    apply tmap2_elem in E2. destruct E2 as (sh2 & B2 & S2 & V2).
    rewrite S1 in B2. rewrite S2 in Hin.
    rewrite V2, V1, S1, (bindex_compose_r _ _ _ _ B1). split.
    + apply Rmax_r.
    + apply Rmax_lub; [apply Rmin_r|].
      apply Hb. exact (bindex_bounds_r _ _ _ _ B2 Hin).
  - unfold clamp_tensor.
    destruct (tmax x lo) as [a1|] eqn:E1; [|discriminate].
    intros E2 idx Hin.
    apply tmap2_elem in E1. destruct E1 as (sh1 & B1 & S1 & V1).
    apply tmap2_elem in E2. destruct E2 as (sh2 & B2 & S2 & V2).
    rewrite S1 in B2. rewrite S2 in Hin.
    rewrite V2, V1, S1, (bindex_compose_r _ _ _ _ B1). split.
    + apply Rmin_glb; [apply Rmax_r|].
      apply Hb. rewrite Hsh. exact (bindex_bounds_r _ _ _ _ B2 Hin).
    + apply Rmin_r.
Qed.

(** C4.  On an instance whose resolved [clip_actions] flag is true, built
    over an action space with bounds [lo <= hi], every element of the action
    that [act] returns lies between the bounds of its dimension (the bounds
    are read by broadcasting), whatever the batch and the noise.  The clamp is
    applied to the sample of the distribution, and the log-probability is
    evaluated with the clamped action. *)
Theorem act_actions_within_bounds
    base0 v ca cls lmin lmax red self0 self states taken inference role noise
    lo hi self' a lp mu :
  __init__ base0 v ca cls lmin lmax red = Ok self0 ->
  reachable self0 self ->
  clip_actions self0 = true ->
  get_low (action_space base0) = Ok lo ->
  get_high (action_space base0) = Ok hi ->
  shape lo = shape hi ->
  (forall k, in_bounds k (shape lo) -> elem lo k <= elem hi k) ->
  act states taken inference role noise self = (self', Ok (a, lp, mu)) ->
  (forall idx,
     in_bounds idx (shape a) ->
     elem lo (bindex (shape lo) idx) <= elem a idx <=
     elem hi (bindex (shape hi) idx)) /\
  exists d lp0,
    _distribution self' = Some d /\
    clip self (rsample d noise) = Ok a /\
    log_prob d (match taken with Some t => t | None => a end) = Ok lp0 /\
    lp = fix_dim (reduce self lp0) a.
Proof.
  intros Hi Hr Hc Hlo Hhi Hsh Hle Hact.
  pose proof (reachable_config _ _ Hr) as Hcfg.
  assert (Hfields : clip_actions self = true /\
                    clip_actions_min self = Some lo /\
                    clip_actions_max self = Some hi).
  { unfold config in Hcfg. injection Hcfg as _ Ec Emin Emax _ _ _ _ _.
    rewrite Ec, Emin, Emax. split; [exact Hc|].
    apply init_inv in Hi.
    destruct Hi as (_ & cmin & cmax & compat & -> &
                    [(_ & l & h & El & Eh & -> & -> & _)|(Hf & _)]).
    - cbn. rewrite Hlo in El. rewrite Hhi in Eh.
      injection El as <-. injection Eh as <-. auto.
    - cbn in Hc. rewrite Hc in Hf. discriminate. }
  destruct Hfields as (Hc' & Emin & Emax).
  destruct (act_inv _ _ _ _ _ _ _ _ _ _ Hact)
    as (ls & n & d & lp0 & _ & _ & _ & Ha & Hlp & -> & ->).
  split.
  - eapply clip_within; eauto.
  - exists d, lp0. unfold evaluated in Hlp. auto.
Qed.

(** ** The resolved clipping flag *)

Lemma existsb_eqb_In red l :
  existsb (String.eqb red) l = true <-> In red l.
Proof.
  rewrite existsb_exists. split.
  - intros (x & Hx & E). apply String.eqb_eq in E. subst. exact Hx.
  - intros H. exists red. split; [exact H|apply String.eqb_refl].
Qed.

Lemma init_no_gym self v ca cls lo hi red :
  is_gym_space (action_space self) = false ->
  In red reduction_names ->
  __init__ self v ca cls lo hi red =
  Ok (mkGaussianModel self false None None None cls lo hi None None None
        (reduction_of red)).
Proof.
  intros Hg Hin. apply existsb_eqb_In in Hin.
  unfold __init__. rewrite Hg, andb_false_r, Hin. reflexivity.
Qed.

(** C5, as amended.  The stored [clip_actions] flag is the requested flag AND
    whether the action-space description is a [gym.Space].  When the
    description is not a [gym.Space], construction raises nothing (for an
    accepted reduction), the flag is false whatever was requested, and [act]
    never clamps: the clipping step returns the sample as it is. *)
Theorem init_clip_actions_resolved base0 v ca cls lo hi red :
  (forall self0,
     __init__ base0 v ca cls lo hi red = Ok self0 ->
     clip_actions self0 = ca && is_gym_space (action_space base0)) /\
  (is_gym_space (action_space base0) = false ->
     (In red reduction_names ->
      exists self0, __init__ base0 v ca cls lo hi red = Ok self0) /\
     (forall self0 self,
        __init__ base0 v ca cls lo hi red = Ok self0 ->
        reachable self0 self ->
        clip_actions self = false /\ forall x, clip self x = Ok x)).
Proof.
  split.
  - intros self0 Hi. apply init_inv in Hi.
    destruct Hi as (_ & cmin & cmax & compat & -> & _). reflexivity.
  - intros Hg. split.
    + intros Hin. eexists. apply init_no_gym; assumption.
    + intros self0 self Hi Hr.
      assert (Hc : clip_actions self = false).
      { apply reachable_config in Hr. unfold config in Hr.
        injection Hr as _ -> _ _ _ _ _ _ _.
        apply init_inv in Hi.
        destruct Hi as (_ & cmin & cmax & compat & -> & _). cbn.
        rewrite Hg. apply andb_false_r. }
      split; [exact Hc|]. intros x. unfold clip. rewrite Hc. reflexivity.
Qed.

(** ** The accessors *)

Lemma act_inv_state self states taken inference role noise self' a lp mu ls :
  act states taken inference role noise self = (self', Ok (a, lp, mu)) ->
  provider self states taken role = Ok (mu, ls) ->
  exists n d,
    shape0 mu = Ok n /\
    Normal_new mu (texp (used_log_std self ls)) = Ok d /\
    self' = recorded self (used_log_std self ls) n d.
Proof.
  intros Hact Hp.
  destruct (act_inv _ _ _ _ _ _ _ _ _ _ Hact)
    as (ls' & n & d & lp0 & Hp' & Hn & Hd & _ & _ & _ & ->).
  rewrite Hp in Hp'. injection Hp' as <-. eauto.
Qed.

(** C6, as amended.  After a call of [act] that returned, with a mean whose
    first dimension is [N], [get_log_std()] is the recorded (clamped) log-std
    tiled [N] times along the rows.  For a log-std of shape [[D]] the result
    has shape [[N, D]] and each of its rows is the recorded log-std; for a
    log-std of shape [[R, D]] the result has shape [[N * R, D]] and its row
    [i] is row [i mod R] of the recorded log-std. *)
Theorem get_log_std_after_act
    self states taken inference role noise self' a lp mu ls N rest :
  act states taken inference role noise self = (self', Ok (a, lp, mu)) ->
  provider self states taken role = Ok (mu, ls) ->
  shape mu = N :: rest ->
  (forall D, shape ls = [D] ->
     exists t, get_log_std self' = Ok t /\ shape t = [N; D] /\
               forall i j, elem t [i; j] = elem (used_log_std self ls) [j]) /\
  (forall R D, shape ls = [R; D] ->
     exists t, get_log_std self' = Ok t /\ shape t = [(N * R)%nat; D] /\
               forall i j, elem t [i; j] =
                           elem (used_log_std self ls) [(i mod R)%nat; j]).
Proof.
  intros Hact Hp Hm.
  destruct (act_inv_state _ _ _ _ _ _ _ _ _ _ _ Hact Hp) as (n & d & Hn & _ & ->).
  unfold shape0 in Hn. rewrite Hm in Hn. injection Hn as <-.
  unfold get_log_std, repeat. cbn. rewrite shape_used_log_std.
  split.
  - intros D ->. eexists. split; [reflexivity|]. cbn. auto.
  - intros R D ->. eexists. split; [reflexivity|]. cbn. auto.
Qed.

(** C7.  On an instance on which [act] has not been called, [get_log_std()]
    raises (the recorded log-std is still [None]) and returns no value. *)
Theorem get_log_std_before_act base0 v ca cls lo hi red self0 :
  __init__ base0 v ca cls lo hi red = Ok self0 ->
  get_log_std self0 = Err (AttributeError "repeat").
Proof.
  intros Hi. apply init_inv in Hi.
  destruct Hi as (_ & cmin & cmax & compat & -> & _). reflexivity.
Qed.

(** C8.  Before any call of [act], [get_entropy()] is the scalar 0.0: a tensor
    of no dimension whose element is 0.  After a call of [act] that returned
    on a batch of size [N] with action dimension [D], it is the entropy of
    the distribution that call built, of shape [[N, D]], whose elements are
    [0.5 + 0.5 * log(2 * pi)] plus the recorded log-std of their dimension. *)
Theorem get_entropy_default_and_shape :
  (forall base0 v ca cls lo hi red self0,
     __init__ base0 v ca cls lo hi red = Ok self0 ->
     get_entropy self0 = scalar 0.0 /\
     shape (get_entropy self0) = [] /\
     forall idx, elem (get_entropy self0) idx = 0) /\
  (forall self states taken inference role noise self' a lp mu ls N D,
     act states taken inference role noise self = (self', Ok (a, lp, mu)) ->
     provider self states taken role = Ok (mu, ls) ->
     shape mu = [N; D] ->
     fits [N; D] ls ->
     exists d,
       distribution self' = Some d /\
       get_entropy self' = entropy d /\
       shape (get_entropy self') = [N; D] /\
       forall idx,
         elem (get_entropy self') idx =
         0.5 + 0.5 * ln (2 * PI) +
         elem (used_log_std self ls) (bindex (shape ls) idx)).
Proof.
  split.
  - intros base0 v ca cls lo hi red self0 Hi. apply init_inv in Hi.
    destruct Hi as (_ & cmin & cmax & compat & -> & _).
    unfold get_entropy. cbn. repeat split. intros _. lra.
  - intros self states taken inference role noise self' a lp mu ls N D
      Hact Hp Hm Hls.
    destruct (act_inv_state _ _ _ _ _ _ _ _ _ _ _ Hact Hp)
      as (n & d & _ & Hd & ->).
    rewrite (Normal_new_fits mu _ [N; D] Hm) in Hd.
    2:{ unfold fits. cbn. rewrite shape_used_log_std. exact Hls. }
    injection Hd as <-.
    eexists. split; [reflexivity|]. unfold get_entropy, entropy, to. cbn.
    repeat split. intros idx. rewrite ln_exp, shape_used_log_std. reflexivity.
Qed.

(** ** The reduction argument *)

(** C9, as amended.  With a reduction outside "mean", "sum", "prod", "none",
    [__init__] never returns an instance, so no call of [act] can precede
    the failure; when the bounds that are read before the check can be read,
    it raises the [ValueError] whose message quotes the four accepted values.
    With one of the four values it never raises a [ValueError], and when the
    bounds can be read it returns an instance. *)
Theorem init_reduction_checked base0 v ca cls lo hi red :
  (~ In red reduction_names ->
     (forall self0, __init__ base0 v ca cls lo hi red <> Ok self0) /\
     (bounds_readable base0 ca ->
      __init__ base0 v ca cls lo hi red = Err reduction_error)) /\
  (In red reduction_names ->
     (forall msg, __init__ base0 v ca cls lo hi red <> Err (ValueError msg)) /\
     (bounds_readable base0 ca ->
      exists self0, __init__ base0 v ca cls lo hi red = Ok self0)) /\
  (exists msg,
     reduction_error = ValueError msg /\
     forall name, In name reduction_names -> quoted_in name msg = true).
Proof.
  split; [|split].
  - intros Hnot.
    assert (Hf : existsb (String.eqb red) reduction_names = false).
    { destruct (existsb (String.eqb red) reduction_names) eqn:E;
        [|reflexivity].
      apply existsb_eqb_In in E. contradiction. }
    split.
    + intros self0 Hi. apply init_inv in Hi. destruct Hi as [Hin _].
      rewrite Hin in Hf. discriminate.
    + intros Hb. unfold __init__, bounds_readable in *.
      destruct (ca && is_gym_space (action_space base0)).
      * destruct (Hb eq_refl) as (l & h & -> & ->). rewrite Hf. reflexivity.
      * rewrite Hf. reflexivity.
  - intros Hin. apply existsb_eqb_In in Hin. split.
    + intros msg. unfold __init__.
      destruct (ca && is_gym_space (action_space base0)).
      * destruct (action_space base0) as [n|l|[[l|] [h|]]];
          cbn [get_low get_high]; try discriminate; rewrite Hin; discriminate.
      * rewrite Hin. discriminate.
    + intros Hb. unfold __init__, bounds_readable in *.
      destruct (ca && is_gym_space (action_space base0)).
      * destruct (Hb eq_refl) as (l & h & -> & ->). rewrite Hin. cbn. eauto.
      * rewrite Hin. cbn. eauto.
  - eexists. split; [reflexivity|].
    intros name [<-|[<-|[<-|[<-|[]]]]]; reflexivity.
Qed.

(** ** The returned mean *)

(** C10.  The third component that [act] returns is the mean the provider
    produced, as it is: whatever the configuration (clipping of the actions,
    clipping of the log-std, reduction) and the inputs. *)
Theorem act_mean_is_provider_mean
    self states taken inference role noise mean ls self' a lp mu :
  provider self states taken role = Ok (mean, ls) ->
  act states taken inference role noise self = (self', Ok (a, lp, mu)) ->
  mu = mean.
Proof.
  intros Hp Hact.
  destruct (act_inv _ _ _ _ _ _ _ _ _ _ Hact)
    as (ls' & n & d & lp0 & Hp' & _).
  rewrite Hp in Hp'. injection Hp' as <- _. reflexivity.
Qed.

(** ** The properties at work on the example instances *)

Example init_unit_policy :
  __init__ (base unit_policy) (1, 13)%nat false true (-20) 2 "sum" =
  Ok unit_policy.
Proof. reflexivity. Qed.

Example init_box_policy :
  __init__ box_model (1, 13)%nat true true (-20) 2 "sum" = Ok box_policy.
Proof. reflexivity. Qed.

Lemma act_log_std_clamped_witness :
  exists L,
    _log_std (fst (act obs1 None true "" five_noise wide_policy)) = Some L /\
    forall idx, -20 <= elem L idx <= 2.
Proof.
  destruct (act_log_std_clamped wide_policy obs1 None true "" five_noise
              (of_rows 2 [[0; 0]]) (of_list [1000; -1000]) _ _
              eq_refl ltac:(cbn; lra) eq_refl (surjective_pairing _))
    as (H1 & H2 & _).
  eexists. split; [exact H1|exact H2].
Defined.

(** Running [act] on a concrete instance, one step of [act_run] at a time. *)
Ltac run_act := eapply act_run; reflexivity.

Lemma act_action_depends_on_taken_counterexample :
  exists s1 a1 lp1 mu1 s2 a2 lp2 mu2,
    act obs1 (Some (of_rows 1 [[0]])) true "" zero_noise echo_policy =
      (s1, Ok (a1, lp1, mu1)) /\
    act obs1 (Some (of_rows 1 [[1]])) true "" zero_noise echo_policy =
      (s2, Ok (a2, lp2, mu2)) /\
    elem a1 [0; 0]%nat <> elem a2 [0; 0]%nat.
Proof.
  do 8 eexists. split; [run_act|]. split; [run_act|].
  cbn. unfold zero_noise. lra.
Qed.

(** The unit Gaussian with the noise [[1.0, -1.0]]: the action is the noise,
    the mean is [[0, 0]], and the log-probability is the sum of the two
    standard-normal log-densities at 1 and -1. *)
Example act_unit_gaussian :
  exists s a lp mu,
    act obs1 None true "" unit_noise unit_policy = (s, Ok (a, lp, mu)) /\
    shape a = [1; 2]%nat /\
    elem a [0; 0]%nat = 1 /\ elem a [0; 1]%nat = -1 /\
    elem mu [0; 0]%nat = 0 /\ elem mu [0; 1]%nat = 0 /\
    shape lp = [1; 1]%nat /\
    elem lp [0; 0]%nat = log_density 0 1 1 + log_density 0 1 (-1).
Proof.
  do 4 eexists. split; [run_act|].
  cbn. rewrite (clamp_inside 0 (-20) 2) by lra. rewrite exp_0.
  replace (0 + 1 * 1) with 1 by lra.
  replace (0 + -1 * 1) with (-1) by lra.
  repeat split. lra.
Qed.

(** With the unit Gaussian and a fixed noise, the log-probability follows the
    supplied actions while the action does not move. *)
Example act_log_prob_follows_taken :
  exists s1 a1 lp1 mu1 s2 a2 lp2 mu2,
    act obs1 (Some (of_rows 2 [[0; 0]])) true "" five_noise unit_policy =
      (s1, Ok (a1, lp1, mu1)) /\
    act obs1 (Some (of_rows 2 [[1; 1]])) true "" five_noise unit_policy =
      (s2, Ok (a2, lp2, mu2)) /\
    a1 = a2 /\ shape lp1 = [1; 1]%nat /\
    elem lp1 [0; 0]%nat <> elem lp2 [0; 0]%nat.
Proof.
  do 8 eexists. split; [run_act|]. split; [run_act|].
  split; [reflexivity|]. split; [reflexivity|].
  cbn. rewrite (clamp_inside 0 (-20) 2) by lra. rewrite exp_0.
  unfold log_density. rewrite ln_1. lra.
Qed.

Lemma act_log_prob_evaluated_witness :
  exists s a lp mu d lp0,
    act obs1 (Some (of_rows 2 [[1; 1]])) true "" five_noise unit_policy =
      (s, Ok (a, lp, mu)) /\
    _distribution s = Some d /\
    log_prob d (of_rows 2 [[1; 1]]) = Ok lp0 /\
    lp = fix_dim (reduce unit_policy lp0) a.
Proof.
  eassert (Hact : act obs1 (Some (of_rows 2 [[1; 1]])) true "" five_noise
                    unit_policy = _) by run_act.
  destruct (act_log_prob_evaluated _ _ _ _ _ _ _ _ _ _ Hact)
    as ((ls & d & lp0 & _ & _ & Hd & _ & Hlp & Hfix) & _).
  do 4 eexists. exists d, lp0. split; [exact Hact|]. auto.
Defined.

Lemma act_log_prob_shape_witness :
  exists self' a lp mu,
    act obs1 None true "" five_noise unit_policy = (self', Ok (a, lp, mu)) /\
    shape a = [1; 2]%nat /\
    shape lp = [1; 1]%nat.
Proof.
  eassert (Hact : act obs1 None true "" five_noise unit_policy = _)
    by run_act.
  assert (Ht : taken_fits None [1; 2]%nat).
  { intros t H. discriminate H. }
  assert (Hb : bounds_fit unit_policy [1; 2]%nat).
  { split; intros t H; discriminate H. }
  destruct (act_log_prob_shape (base unit_policy) (1, 13)%nat false true
              (-20) 2 "sum" unit_policy unit_policy obs1 None true ""
              five_noise _ _ _ _ (of_list [0; 0]) 1 2
              eq_refl (reach_init _) Hact eq_refl eq_refl eq_refl Ht Hb)
    as (Sa & Hsum & _).
  do 4 eexists. split; [exact Hact|]. split; [exact Sa|].
  apply Hsum. left. reflexivity.
Defined.

Lemma box_bounds_ordered k :
  in_bounds k [2%nat] ->
  elem (of_list [-1; -1]) k <= elem (of_list [1; 1]) k.
Proof.
  intros H. inversion H as [|i n k' sh' Hi Hk]; subst.
  inversion Hk; subst. cbn.
  destruct i as [|[|i]]; cbn; lra || lia.
Qed.

Lemma act_actions_within_bounds_witness :
  exists self' a lp mu,
    act obs1 None true "" five_noise box_policy = (self', Ok (a, lp, mu)) /\
    -1 <= elem a [0; 0]%nat <= 1 /\ -1 <= elem a [0; 1]%nat <= 1 /\
    elem mu [0; 0]%nat = 5.
Proof.
  eassert (Hact : act obs1 None true "" five_noise box_policy = _)
    by run_act.
  destruct (act_actions_within_bounds box_model (1, 13)%nat true true
              (-20) 2 "sum" box_policy box_policy obs1 None true ""
              five_noise (of_list [-1; -1]) (of_list [1; 1]) _ _ _ _
              eq_refl (reach_init _) eq_refl eq_refl eq_refl eq_refl
              box_bounds_ordered Hact)
    as [Hb _].
  do 4 eexists. split; [exact Hact|].
  split; [|split; [|reflexivity]].
  - apply (Hb [0; 0]%nat). repeat constructor.
  - apply (Hb [0; 1]%nat). repeat constructor.
Defined.

Lemma init_clip_without_bounds_counterexample :
  is_gym_space discrete_space = true /\
  get_low discrete_space = Err (AttributeError "low") /\
  __init__ (model_of discrete_space
              (constant_provider (of_rows 1 [[0]]) (of_list [0])))
    (1, 13)%nat true true (-20) 2 "sum" = Err (AttributeError "low").
Proof. repeat split. Qed.

Lemma init_clip_actions_resolved_witness :
  exists self0,
    __init__ (base unit_policy) (1, 13)%nat true true (-20) 2 "sum" =
      Ok self0 /\
    clip_actions self0 = false /\
    forall x, clip self0 x = Ok x.
Proof.
  destruct (init_clip_actions_resolved (base unit_policy) (1, 13)%nat true
              true (-20) 2 "sum") as [_ H].
  destruct (H eq_refl) as [Hex Hno].
  destruct Hex as [self0 Hi].
  - right. left. reflexivity.
  - exists self0. split; [exact Hi|]. exact (Hno self0 self0 Hi (reach_init _)).
Defined.

Lemma get_log_std_batched_counterexample :
  exists s a lp mu t,
    act obs2 None true "" zero_noise batched_policy = (s, Ok (a, lp, mu)) /\
    shape mu = [2; 1]%nat /\
    get_log_std s = Ok t /\
    shape t = [4; 1]%nat /\
    shape t <> [2; 1]%nat.
Proof.
  do 5 eexists. split; [run_act|]. repeat split. discriminate.
Qed.

Lemma get_log_std_after_act_witness :
  exists s a lp mu t,
    act obs1 None true "" five_noise wide_policy = (s, Ok (a, lp, mu)) /\
    get_log_std s = Ok t /\
    shape t = [1; 2]%nat /\
    elem t [0; 0]%nat = 2 /\ elem t [0; 1]%nat = -20.
Proof.
  eassert (Hact : act obs1 None true "" five_noise wide_policy = _)
    by run_act.
  destruct (get_log_std_after_act _ _ _ _ _ _ _ _ _ _
              (of_list [1000; -1000]) 1%nat [2%nat] Hact eq_refl eq_refl)
    as [H1 _].
  destruct (H1 2%nat eq_refl) as (t & Ht & St & Et).
  do 4 eexists. exists t. split; [exact Hact|].
  split; [exact Ht|]. split; [exact St|].
  rewrite !Et. cbn. unfold Rmin, Rmax.
  repeat destruct (Rle_dec _ _); split; lra.
Defined.

Lemma get_log_std_before_act_witness :
  get_log_std unit_policy = Err (AttributeError "repeat").
Proof.
  exact (get_log_std_before_act (base unit_policy) (1, 13)%nat false true
           (-20) 2 "sum" unit_policy eq_refl).
Defined.

Lemma get_entropy_default_and_shape_witness :
  shape (get_entropy unit_policy) = [] /\
  elem (get_entropy unit_policy) [] = 0 /\
  exists s a lp mu,
    act obs1 None true "" five_noise unit_policy = (s, Ok (a, lp, mu)) /\
    shape (get_entropy s) = [1; 2]%nat.
Proof.
  destruct get_entropy_default_and_shape as [H0 H1].
  destruct (H0 (base unit_policy) (1, 13)%nat false true (-20) 2 "sum"%string
              unit_policy eq_refl) as (_ & Hs & He).
  split; [exact Hs|]. split; [apply He|].
  eassert (Hact : act obs1 None true "" five_noise unit_policy = _)
    by run_act.
  destruct (H1 _ _ _ _ _ _ _ _ _ _ (of_list [0; 0]) 1%nat 2%nat Hact
              eq_refl eq_refl eq_refl) as (d & _ & _ & Hsh & _).
  do 4 eexists. split; [exact Hact|exact Hsh].
Defined.

Lemma init_reduction_checked_counterexample :
  __init__ (model_of discrete_space
              (constant_provider (of_rows 1 [[0]]) (of_list [0])))
    (1, 13)%nat true true (-20) 2 "invalid" = Err (AttributeError "low") /\
  Err (A := GaussianModel) (AttributeError "low") <> Err reduction_error /\
  __init__ (model_of discrete_space
              (constant_provider (of_rows 1 [[0]]) (of_list [0])))
    (1, 13)%nat true true (-20) 2 "mean" = Err (AttributeError "low").
Proof. repeat split. discriminate. Qed.

Lemma init_reduction_checked_witness :
  __init__ (base unit_policy) (1, 13)%nat false true (-20) 2 "invalid" =
    Err reduction_error /\
  exists self0,
    __init__ (base unit_policy) (1, 13)%nat false true (-20) 2 "prod" =
      Ok self0.
Proof.
  split.
  - destruct (init_reduction_checked (base unit_policy) (1, 13)%nat false
                true (-20) 2 "invalid") as [H _].
    apply H.
    + cbn. intros [E|[E|[E|[E|[]]]]]; discriminate E.
    + intros E. discriminate E.
  - destruct (init_reduction_checked (base unit_policy) (1, 13)%nat false
                true (-20) 2 "prod") as (_ & H & _).
    apply H.
    + cbn. auto.
    + intros E. discriminate E.
Defined.

Lemma act_mean_is_provider_mean_witness :
  exists s a lp mu,
    act obs1 None true "" five_noise box_policy = (s, Ok (a, lp, mu)) /\
    mu = of_rows 2 [[5; 5]] /\
    elem mu [0; 0]%nat = 5 /\ elem a [0; 0]%nat = 1.
Proof.
  eassert (Hact : act obs1 None true "" five_noise box_policy = _)
    by run_act.
  pose proof (act_mean_is_provider_mean box_policy obs1 None true ""
                five_noise (of_rows 2 [[5; 5]]) (of_list [0; 0]) _ _ _ _
                eq_refl Hact) as Hmu.
  do 4 eexists. split; [exact Hact|]. split; [exact Hmu|].
  split; [reflexivity|].
  cbn. rewrite (clamp_inside 0 (-20) 2) by lra. rewrite exp_0.
  unfold five_noise, Rmin, Rmax. repeat destruct (Rle_dec _ _); lra.
Defined.

(** * Further properties of the methods *)

(** ** What [act] leaves alone, and what it leaves behind when it raises *)

(** X1.  However many calls of [act] were made on an instance, returned or
    raised, its configuration is what it was: the provider, the clipping
    flags and bounds, the limits of the log-std and the reduction. *)
Theorem act_keeps_configuration self0 self :
  reachable self0 self ->
  base self = base self0 /\
  clip_actions self = clip_actions self0 /\
  clip_actions_min self = clip_actions_min self0 /\
  clip_actions_max self = clip_actions_max self0 /\
  _backward_compatibility self = _backward_compatibility self0 /\
  clip_log_std self = clip_log_std self0 /\
  log_std_min self = log_std_min self0 /\
  log_std_max self = log_std_max self0 /\
  _reduction self = _reduction self0.
Proof.
  intros Hr. apply reachable_config in Hr. unfold config in Hr.
  injection Hr as H1 H2 H3 H4 H5 H6 H7 H8 H9. auto 10.
Qed.

(** X2.  An exception of the provider leaves [act] as it is, and the instance
    is not touched. *)
Theorem act_propagates_provider_error
    self states taken inference role noise e :
  provider self states taken role = Err e ->
  act states taken inference role noise self = (self, Err e).
Proof.
  intros Hp.
  unfold act, bind, get, lift. rewrite Hp. reflexivity.
Qed.

(** X3.  A mean without dimension makes [act] raise an [IndexError] at
    [actions_mean.shape[0]]: by then the log-std is already recorded, while
    the sample count and the distribution are those of the call before. *)
Theorem act_scalar_mean_raises
    self states taken inference role noise mean ls :
  provider self states taken role = Ok (mean, ls) ->
  shape mean = [] ->
  exists self',
    act states taken inference role noise self = (self', Err IndexError) /\
    _log_std self' = Some (used_log_std self ls) /\
    _num_samples self' = _num_samples self /\
    _distribution self' = _distribution self.
Proof.
  intros Hp Hm.
  unfold act, bind, get, lift, set_log_std, set_num_samples, set_distribution.
  rewrite Hp. fold (used_log_std self ls). cbn.
  unfold shape0. rewrite Hm. eexists. split; [reflexivity|]. cbn. auto.
Qed.

(** X4.  A mean and a log-std whose shapes do not broadcast make [act] raise
    when the distribution is built: the log-std and the sample count of this
    call are recorded, the distribution is still the one of the call
    before. *)
Theorem act_shape_mismatch_raises
    self states taken inference role noise mean ls n rest :
  provider self states taken role = Ok (mean, ls) ->
  shape mean = n :: rest ->
  broadcast_shapes (shape mean) (shape ls) = None ->
  exists self',
    act states taken inference role noise self = (self', Err RuntimeError) /\
    _log_std self' = Some (used_log_std self ls) /\
    _num_samples self' = Some n /\
    _distribution self' = _distribution self.
Proof.
  intros Hp Hm Hb.
  assert (Hd : Normal_new mean (texp (used_log_std self ls)) =
               Err RuntimeError).
  { unfold Normal_new, broadcast_tensors. cbn [texp tmap shape].
    rewrite shape_used_log_std, Hb. reflexivity. }
  assert (Hn : shape0 mean = Ok n).
  { unfold shape0. rewrite Hm. reflexivity. }
  unfold act, bind, get, lift, set_log_std, set_num_samples, set_distribution.
  rewrite Hp. fold (used_log_std self ls). cbn.
  rewrite Hn, Hd.
  eexists. split; [reflexivity|]. cbn. auto.
Qed.

(** ** The log-std that is recorded *)

(** X5.  Without [clip_log_std] the log-std of the provider is recorded and
    exponentiated as it is, whatever its values. *)
Theorem act_log_std_unclipped
    self states taken inference role noise mean ls self' r :
  clip_log_std self = false ->
  provider self states taken role = Ok (mean, ls) ->
  act states taken inference role noise self = (self', r) ->
  _log_std self' = Some ls /\
  (forall a lp mu, r = Ok (a, lp, mu) ->
     exists d,
       _distribution self' = Some d /\
       forall idx, elem (scale d) idx = exp (elem ls (bindex (shape ls) idx))).
Proof.
  intros Hclip Hp Hact.
  assert (HL : used_log_std self ls = ls).
  { unfold used_log_std. rewrite Hclip. reflexivity. }
  split.
  - rewrite (act_records_log_std _ _ _ _ _ _ _ _ _ _ Hp Hact), HL.
    reflexivity.
  - intros a lp mu ->.
    destruct (act_inv _ _ _ _ _ _ _ _ _ _ Hact)
      as (ls' & n & d & lp0 & Hp' & _ & Hd & _ & _ & _ & ->).
    rewrite Hp in Hp'. injection Hp' as <- <-. rewrite HL in Hd.
    exists d. split; [reflexivity|].
    unfold Normal_new, broadcast_tensors in Hd.
    destruct (broadcast_shapes (shape mean) (shape (texp ls))) as [sh|];
      [|discriminate].
    injection Hd as <-. intros idx. reflexivity.
Qed.

(** X6.  With [clip_log_std] (and [log_std_min <= log_std_max]) the recorded
    log-std has the shape of the provider's, keeps each element that is
    within the limits, and replaces an element above [log_std_max] by
    [log_std_max] and one below [log_std_min] by [log_std_min]. *)
Theorem act_log_std_saturates
    self states taken inference role noise mean ls self' r :
  clip_log_std self = true ->
  log_std_min self <= log_std_max self ->
  provider self states taken role = Ok (mean, ls) ->
  act states taken inference role noise self = (self', r) ->
  exists L,
    _log_std self' = Some L /\
    shape L = shape ls /\
    forall idx,
      (log_std_min self <= elem ls idx <= log_std_max self ->
       elem L idx = elem ls idx) /\
      (log_std_max self < elem ls idx -> elem L idx = log_std_max self) /\
      (elem ls idx < log_std_min self -> elem L idx = log_std_min self).
Proof.
  intros Hclip Hle Hp Hact.
  exists (clamp ls (log_std_min self) (log_std_max self)).
  split; [|split; [reflexivity|]].
  - rewrite (act_records_log_std _ _ _ _ _ _ _ _ _ _ Hp Hact).
    unfold used_log_std. rewrite Hclip. reflexivity.
  - intros idx. cbn. repeat split.
    + apply clamp_inside.
    + intros H. rewrite Rmax_left by lra. apply Rmin_right. lra.
    + intros H. rewrite Rmax_right by lra. apply Rmin_left. exact Hle.
Qed.

(** ** The sampled action *)

(** X7.  Without clipping of the actions, the action that [act] returns is
    the reparameterised sample: it has the broadcast shape of the mean and
    the log-std, and each element is the mean plus the noise times the
    exponential of the recorded log-std. *)
Theorem act_sample_reparameterised
    self states taken inference role noise self' a lp mu ls :
  clip_actions self = false ->
  provider self states taken role = Ok (mu, ls) ->
  act states taken inference role noise self = (self', Ok (a, lp, mu)) ->
  exists sh,
    broadcast_shapes (shape mu) (shape ls) = Some sh /\
    shape a = sh /\
    forall idx,
      elem a idx =
      elem mu (bindex (shape mu) idx) +
      noise idx * exp (elem (used_log_std self ls) (bindex (shape ls) idx)).
Proof.
  intros Hc Hp Hact.
  destruct (act_inv _ _ _ _ _ _ _ _ _ _ Hact)
    as (ls' & n & d & lp0 & Hp' & _ & Hd & Ha & _).
  rewrite Hp in Hp'. injection Hp' as <-.
  unfold clip in Ha. rewrite Hc in Ha. injection Ha as <-.
  unfold Normal_new, broadcast_tensors in Hd. cbn [texp tmap shape] in Hd.
  rewrite shape_used_log_std in Hd.
  destruct (broadcast_shapes (shape mu) (shape ls)) as [sh|]; [|discriminate].
  injection Hd as <-. exists sh. cbn.
  rewrite shape_used_log_std. auto.
Qed.

Lemma Rmax_Rmin_swap s lo hi :
  lo <= hi -> Rmax (Rmin s hi) lo = Rmin (Rmax s lo) hi.
Proof.
  intros H. unfold Rmin, Rmax.
  repeat destruct (Rle_dec _ _); lra.
Qed.

(** X8.  With bounds [low <= high], the clipping step computes the same
    action on a torch older than 1.9 ([max(min(a, high), low)]) and on a
    newer one ([clamp(a, low, high)]): each element is the sample brought up
    to [low] and down to [high]. *)
Theorem clip_same_on_both_branches self x a lo hi :
  clip_actions self = true ->
  clip_actions_min self = Some lo ->
  clip_actions_max self = Some hi ->
  shape lo = shape hi ->
  (forall k, in_bounds k (shape lo) -> elem lo k <= elem hi k) ->
  clip self x = Ok a ->
  forall idx,
    in_bounds idx (shape a) ->
    elem a idx =
    Rmin (Rmax (elem x (bindex (shape x) idx))
               (elem lo (bindex (shape lo) idx)))
         (elem hi (bindex (shape hi) idx)).
Proof.
  intros Hc Emin Emax Hsh Hle. unfold clip. rewrite Hc, Emin, Emax.
  destruct (_backward_compatibility self) as [[|]|]; cbn; [| |discriminate].
  - destruct (tmin x hi) as [a1|] eqn:E1; [|discriminate].
    intros E2 idx Hin.
    apply tmap2_elem in E1. destruct E1 as (sh1 & B1 & S1 & V1).
    apply tmap2_elem in E2. destruct E2 as (sh2 & B2 & S2 & V2).
    rewrite S1 in B2. rewrite S2 in Hin.
    rewrite V2, V1, S1, (bindex_compose_r _ _ _ _ B1),
      (bindex_compose_l _ _ _ _ B1).
    apply Rmax_Rmin_swap.
    rewrite <- Hsh. apply Hle.
    exact (bindex_bounds_r _ _ _ _ B2 Hin).
  - unfold clamp_tensor.
    destruct (tmax x lo) as [a1|] eqn:E1; [|discriminate].
    intros E2 idx Hin.
    apply tmap2_elem in E1. destruct E1 as (sh1 & B1 & S1 & V1).
    apply tmap2_elem in E2. destruct E2 as (sh2 & B2 & S2 & V2).
    rewrite V2, V1, S1, (bindex_compose_r _ _ _ _ B1),
      (bindex_compose_l _ _ _ _ B1).
    reflexivity.
Qed.

(** X9.  Where the bounds are the wrong way round, [high < low], the two
    branches differ: a torch older than 1.9 returns [low] there, a newer one
    returns [high]. *)
Theorem clip_crossed_bounds self x a lo hi idx :
  clip_actions self = true ->
  clip_actions_min self = Some lo ->
  clip_actions_max self = Some hi ->
  elem hi (bindex (shape hi) idx) < elem lo (bindex (shape lo) idx) ->
  clip self x = Ok a ->
  (_backward_compatibility self = Some true ->
   elem a idx = elem lo (bindex (shape lo) idx)) /\
  (_backward_compatibility self = Some false ->
   elem a idx = elem hi (bindex (shape hi) idx)).
Proof.
  intros Hc Emin Emax Hlt. unfold clip. rewrite Hc, Emin, Emax.
  destruct (_backward_compatibility self) as [[|]|]; cbn; [| |discriminate].
  - destruct (tmin x hi) as [a1|] eqn:E1; [|discriminate].
    intros E2. split; [intros _|discriminate].
    apply tmap2_elem in E1. destruct E1 as (sh1 & B1 & S1 & V1).
    apply tmap2_elem in E2. destruct E2 as (sh2 & B2 & S2 & V2).
    rewrite V2, V1, S1, (bindex_compose_r _ _ _ _ B1).
    apply Rmax_right.
    eapply Rle_trans; [apply Rmin_r|]. lra.
  - unfold clamp_tensor.
    destruct (tmax x lo) as [a1|] eqn:E1; [|discriminate].
    intros E2. split; [discriminate|intros _].
    apply tmap2_elem in E1. destruct E1 as (sh1 & B1 & S1 & V1).
    apply tmap2_elem in E2. destruct E2 as (sh2 & B2 & S2 & V2).
    rewrite V2, V1, S1, (bindex_compose_r _ _ _ _ B1).
    apply Rmin_right.
    eapply Rle_trans; [|apply Rmax_r]. lra.
Qed.

(** ** The entropy *)


(** ** The value of the log-probability *)

(** X11.  For supplied actions [t] of the shape [[N, D]] of the mean, the
    log-probability of row [i] is the reduction, over the action dimensions,
    of the Gaussian log-densities of [t[i, k]] under mean [mean[i, k]] and
    scale [exp(log_std)]; with reduction "none" element [[i, k]] is that
    log-density itself. *)
Theorem act_log_prob_of_taken
    self states t inference role noise self' a lp mu ls N D :
  clip_attrs_set self ->
  bounds_fit self [N; D] ->
  provider self states (Some t) role = Ok (mu, ls) ->
  shape mu = [N; D] ->
  fits [N; D] ls ->
  shape t = [N; D] ->
  act states (Some t) inference role noise self = (self', Ok (a, lp, mu)) ->
  let dens i k :=
    log_density (elem mu [i; k])
      (exp (elem (used_log_std self ls) (bindex (shape ls) [i; k])))
      (elem t [i; k]) in
  (forall f, _reduction self = Some f ->
     forall i, (i < N)%nat ->
       elem lp [i; O] = reduce_list f (map (dens i) (seq 0 D))) /\
  (_reduction self = None ->
     forall i k, (i < N)%nat -> (k < D)%nat -> elem lp [i; k] = dens i k).
Proof.
  intros Hset Hb Hp Hm Hls Ht Hact dens.
  destruct (act_inv _ _ _ _ _ _ _ _ _ _ Hact)
    as (ls' & n & d & lp0 & Hp' & _ & Hd & Ha & Hlp & -> & _).
  rewrite Hp in Hp'. injection Hp' as <-.
  rewrite (Normal_new_fits mu _ [N; D] Hm) in Hd.
  2:{ unfold fits. cbn. rewrite shape_used_log_std. exact Hls. }
  injection Hd as <-.
  match type of Ha with clip self ?x = _ =>
    destruct (clip_fits self x [N; D] Hset Hb eq_refl) as (a' & Ha' & Sa)
  end.
  rewrite Ha in Ha'. injection Ha' as <-.
  unfold evaluated, log_prob, batch_shape in Hlp. cbn [loc shape expand] in Hlp.
  rewrite Ht, broadcast_shapes_refl in Hlp. injection Hlp as <-.
  assert (Hel : forall i k, (i < N)%nat -> (k < D)%nat ->
            log_density
              (elem (expand (expand mu [N; D]) [N; D]) [i; k])
              (elem (expand (expand (texp (used_log_std self ls)) [N; D])
                             [N; D]) [i; k])
              (elem (expand t [N; D]) [i; k]) = dens i k).
  { intros i k Hi Hk. unfold dens. cbn [expand elem shape texp tmap].
    rewrite Hm, Ht, shape_used_log_std.
    assert (Hin : in_bounds [i; k] [N; D]) by (repeat constructor; assumption).
    rewrite !(bindex_in_bounds [N; D] [i; k] Hin). reflexivity. }
  split.
  - intros f Hf i Hi. unfold fix_dim, reduce, reduce_last, dim. rewrite Hf.
    cbn [shape rev app]. rewrite Sa. cbn.
    f_equal. apply map_ext_in. intros k Hk. apply in_seq in Hk.
    apply Hel; lia.
  - intros Hf i k Hi Hk. unfold fix_dim, reduce, dim. rewrite Hf.
    cbn [shape]. rewrite Sa. cbn [length Nat.eqb negb elem].
    apply Hel; assumption.
Qed.

(** ** Calls do not build on each other *)

Lemma act_depends_on_config s1 s2 states taken inference role noise :
  config s1 = config s2 ->
  snd (act states taken inference role noise s1) =
  snd (act states taken inference role noise s2) /\
  (is_ok (snd (act states taken inference role noise s1)) = true ->
   fst (act states taken inference role noise s1) =
   fst (act states taken inference role noise s2)).
Proof.
  intros Hc.
  assert (Hp : provider s1 states taken role = provider s2 states taken role).
  { unfold config in Hc. injection Hc as Hb _ _ _ _ _ _ _ _.
    unfold provider. rewrite Hb. reflexivity. }
  assert (Hr : forall lp, reduce s1 lp = reduce s2 lp).
  { unfold config in Hc. injection Hc as _ _ _ _ _ _ _ _ Hred.
    intros lp. unfold reduce. rewrite Hred. reflexivity. }
  unfold act, bind, get, lift, set_log_std, set_num_samples, set_distribution.
  rewrite <- Hp.
  destruct (provider s1 states taken role) as [[mean ls]|e];
    [|cbn; split; [reflexivity|discriminate]].
  fold (used_log_std s1 ls). fold (used_log_std s2 ls).
  rewrite <- (config_used_log_std _ _ ls Hc). cbn.
  destruct (shape0 mean) as [n|e]; [|cbn; split; [reflexivity|discriminate]].
  destruct (Normal_new mean _) as [d|e];
    [|cbn; split; [reflexivity|discriminate]].
  cbn. rewrite <- (config_clip _ _ _ Hc).
  destruct (clip s1 (rsample d noise)) as [a|e];
    [|cbn; split; [reflexivity|discriminate]].
  destruct (log_prob d _) as [lp|e];
    [|cbn; split; [reflexivity|discriminate]].
  rewrite <- Hr.
  unfold config in Hc. injection Hc as -> -> -> -> -> -> -> -> ->.
  destruct inference; cbn; auto.
Qed.

(** X12.  The transient state is overwritten, not accumulated: on an instance
    that has been through any calls of [act], a call returns or raises what
    it would on the instance as it was, and when it returns it leaves the
    whole instance as it would have left that one. *)
Theorem act_forgets_earlier_calls
    self0 self states taken inference role noise :
  reachable self0 self ->
  snd (act states taken inference role noise self) =
  snd (act states taken inference role noise self0) /\
  (is_ok (snd (act states taken inference role noise self)) = true ->
   fst (act states taken inference role noise self) =
   fst (act states taken inference role noise self0)).
Proof.
  intros Hr. apply act_depends_on_config. apply reachable_config. exact Hr.
Qed.

(** X13.  With clipping requested on a [gym.Space], [__init__] reads the
    bounds before it checks the reduction: a space without [low] (or with
    [low] but without [high]) raises the [AttributeError], whatever the
    reduction, valid or not. *)
Theorem init_reads_bounds_first base0 v cls lo hi red g :
  action_space base0 = SpaceGym g ->
  (low g = None ->
   __init__ base0 v true cls lo hi red = Err (AttributeError "low")) /\
  (forall l, low g = Some l -> high g = None ->
   __init__ base0 v true cls lo hi red = Err (AttributeError "high")).
Proof.
  intros Hs. unfold __init__. rewrite Hs. destruct g as [gl gh]. cbn.
  split.
  - intros ->. reflexivity.
  - intros l -> ->. reflexivity.
Qed.

(** X14.  After a call of [act] that returned with batch size [N]: for a
    log-std without dimension [get_log_std()] has shape [[N, 1]] and repeats
    that one value; for a log-std of more than two dimensions it raises. *)
Theorem get_log_std_other_ranks
    self states taken inference role noise self' a lp mu ls N rest :
  act states taken inference role noise self = (self', Ok (a, lp, mu)) ->
  provider self states taken role = Ok (mu, ls) ->
  shape mu = N :: rest ->
  (shape ls = [] ->
     exists t, get_log_std self' = Ok t /\ shape t = [N; 1%nat] /\
               forall idx, elem t idx = elem (used_log_std self ls) []) /\
  ((2 < length (shape ls))%nat -> get_log_std self' = Err RuntimeError).
Proof.
  intros Hact Hp Hm.
  destruct (act_inv_state _ _ _ _ _ _ _ _ _ _ _ Hact Hp) as (n & d & Hn & _ & ->).
  unfold shape0 in Hn. rewrite Hm in Hn. injection Hn as <-.
  unfold get_log_std, repeat. cbn. rewrite shape_used_log_std.
  split.
  - intros ->. eexists. split; [reflexivity|]. cbn. auto.
  - intros Hlen. destruct (shape ls) as [|r [|d0 [|d1 sh]]]; cbn in Hlen;
      try lia. reflexivity.
Qed.

(** X15.  With an instantiated network the role is not passed on: [act]
    does the same whatever the role. *)
Theorem act_ignores_role_with_instantiator
    self states taken inference role1 role2 noise :
  _instantiator_net_is_None (base self) = false ->
  act states taken inference role1 noise self =
  act states taken inference role2 noise self.
Proof.
  intros H. unfold act, bind, get, lift, provider. rewrite H. reflexivity.
Qed.

(** ** Shapes in any number of dimensions *)

Lemma shape_fix_dim_reduce_any self lp a pre d :
  shape lp = pre ++ [d] -> shape a = pre ++ [d] ->
  shape (fix_dim (reduce self lp) a) =
  match _reduction self with
  | Some _ => pre ++ [1%nat]
  | None => pre ++ [d]
  end.
Proof.
  intros Hlp Ha. unfold fix_dim, reduce, dim.
  destruct (_reduction self) as [f|].
  - rewrite (shape_reduce_last f lp pre d Hlp), Ha.
    rewrite length_app. cbn [length].
    replace (length pre =? length pre + 1)%nat with false
      by (symmetry; apply Nat.eqb_neq; lia).
    cbn. rewrite (shape_reduce_last f lp pre d Hlp). reflexivity.
  - rewrite Hlp, Ha, Nat.eqb_refl. cbn. exact Hlp.
Qed.

(** X16.  For a mean of any shape [pre ++ [d]] (log-std, supplied actions and
    bounds broadcasting to it), the action that [act] returns has that shape
    and the log-probability has shape [pre ++ [1]] with a reduction and
    [pre ++ [d]] without: a mean of one dimension [[d]] gives a
    log-probability of shape [[1]]. *)
Theorem act_shapes_any_rank
    base0 v ca cls lo hi red self0 self states taken inference role noise
    self' a lp mu ls pre d :
  __init__ base0 v ca cls lo hi red = Ok self0 ->
  reachable self0 self ->
  act states taken inference role noise self = (self', Ok (a, lp, mu)) ->
  provider self states taken role = Ok (mu, ls) ->
  shape mu = pre ++ [d] ->
  fits (pre ++ [d]) ls ->
  taken_fits taken (pre ++ [d]) ->
  bounds_fit self (pre ++ [d]) ->
  shape a = pre ++ [d] /\
  (red <> "none"%string -> shape lp = pre ++ [1%nat]) /\
  (red = "none"%string -> shape lp = pre ++ [d]).
Proof.
  intros Hi Hr Hact Hp Hm Hls Ht Hb.
  destruct (reachable_from_init _ _ _ _ _ _ _ _ _ Hi Hr) as (Hset & Hred & Hin).
  destruct (act_returned_shapes _ _ _ _ _ _ _ _ _ _ _ _
              Hset Hact Hp Hm Hls Ht Hb) as (lp0 & -> & Sa & Slp).
  split; [exact Sa|].
  rewrite (shape_fix_dim_reduce_any self lp0 a pre d Slp Sa), Hred.
  destruct (reduction_of_none red Hin) as [Hnone Hsome]. split.
  - intros Hne. destruct (Hsome Hne) as [f ->]. reflexivity.
  - intros E. rewrite (Hnone E). reflexivity.
Qed.

(** ** The transient state and the distribution *)

Lemma Normal_new_exp m L d :
  Normal_new m (texp L) = Ok d ->
  shape (loc d) = shape (scale d) /\
  forall idx, 0 < elem (scale d) idx.
Proof.
  unfold Normal_new, broadcast_tensors.
  destruct (broadcast_shapes (shape m) (shape (texp L))) as [sh|];
    [|discriminate].
  intros [= <-]. cbn. split; [reflexivity|]. intros idx. apply exp_pos.
Qed.

Lemma act_preserves_transient states taken inference role noise self self' r :
  transient_consistent self ->
  act states taken inference role noise self = (self', r) ->
  transient_consistent self'.
Proof.
  intros (H1 & H2 & H3).
  unfold act, bind, get, lift, set_log_std, set_num_samples, set_distribution.
  destruct (provider self states taken role) as [[mean ls]|e].
  2:{ intros [= <- _]. repeat split; auto; apply H3; auto. }
  cbn. destruct (shape0 mean) as [n|e].
  2:{ intros [= <- _]. unfold transient_consistent. cbn.
      split; [exact H1|]. split; [eauto|exact H3]. }
  destruct (Normal_new mean _) as [d|e] eqn:Hd.
  2:{ intros [= <- _]. unfold transient_consistent. cbn.
      split; [eauto|]. split; [eauto|exact H3]. }
  assert (Hnew : transient_consistent
            (mkGaussianModel (base self) (clip_actions self)
               (clip_actions_min self) (clip_actions_max self)
               (_backward_compatibility self) (clip_log_std self)
               (log_std_min self) (log_std_max self)
               (Some (if clip_log_std self
                      then clamp ls (log_std_min self) (log_std_max self)
                      else ls))
               (Some n) (Some d) (_reduction self))).
  { unfold transient_consistent. cbn. split; [eauto|]. split; [eauto|].
    intros d0 [= <-]. exact (Normal_new_exp _ _ _ Hd). }
  cbn. destruct (clip self (rsample d noise)) as [a|e];
    [|intros [= <- _]; exact Hnew].
  destruct (log_prob d _) as [lp|e]; [|intros [= <- _]; exact Hnew].
  destruct inference; intros [= <- _]; exact Hnew.
Qed.

(** X17.  On an instance built by [__init__], after any calls of [act],
    returned or raised: when a distribution is recorded so is a sample
    count, when a sample count is recorded so is a log-std, and the recorded
    distribution has a mean and a scale of one shape with every scale
    positive. *)
Theorem transient_state_consistent
    base0 v ca cls lo hi red self0 self :
  __init__ base0 v ca cls lo hi red = Ok self0 ->
  reachable self0 self ->
  (forall d, _distribution self = Some d ->
     exists n, _num_samples self = Some n) /\
  (forall n, _num_samples self = Some n ->
     exists L, _log_std self = Some L) /\
  (forall d, _distribution self = Some d ->
     shape (loc d) = shape (scale d) /\
     forall idx, 0 < elem (scale d) idx).
Proof.
  intros Hi Hr. change (transient_consistent self).
  induction Hr as [|self states taken inference role noise self' r _ IH Hact].
  - apply init_inv in Hi.
    destruct Hi as (_ & cmin & cmax & compat & -> & _).
    unfold transient_consistent. cbn. repeat split; discriminate.
  - eapply act_preserves_transient; eauto.
Qed.

(** X18.  [distribution()] is [None] on a new instance; after a call of
    [act] that returned it is the Gaussian of that call: its mean and scale
    have the broadcast shape of the provider's mean and log-std, the mean
    holds the provider's mean and the scale the exponential of the recorded
    log-std. *)
Theorem distribution_after_act :
  (forall base0 v ca cls lo hi red self0,
     __init__ base0 v ca cls lo hi red = Ok self0 ->
     distribution self0 = None) /\
  (forall self states taken inference role noise self' a lp mu ls,
     act states taken inference role noise self = (self', Ok (a, lp, mu)) ->
     provider self states taken role = Ok (mu, ls) ->
     exists d sh,
       distribution self' = Some d /\
       broadcast_shapes (shape mu) (shape ls) = Some sh /\
       shape (loc d) = sh /\ shape (scale d) = sh /\
       forall idx,
         elem (loc d) idx = elem mu (bindex (shape mu) idx) /\
         elem (scale d) idx =
         exp (elem (used_log_std self ls) (bindex (shape ls) idx))).
Proof.
  split.
  - intros base0 v ca cls lo hi red self0 Hi. apply init_inv in Hi.
    destruct Hi as (_ & cmin & cmax & compat & -> & _). reflexivity.
  - intros self states taken inference role noise self' a lp mu ls Hact Hp.
    destruct (act_inv_state _ _ _ _ _ _ _ _ _ _ _ Hact Hp)
      as (n & d & _ & Hd & ->).
    unfold Normal_new, broadcast_tensors in Hd. cbn [texp tmap shape] in Hd.
    rewrite shape_used_log_std in Hd.
    destruct (broadcast_shapes (shape mu) (shape ls)) as [sh|];
      [|discriminate].
    injection Hd as <-. do 2 eexists. split; [reflexivity|].
    split; [reflexivity|]. cbn. rewrite shape_used_log_std. auto.
Qed.

(** ** The further properties at work on the example instances *)

Lemma act_keeps_configuration_witness :
  clip_log_std (fst (act obs1 None true "" five_noise unit_policy)) = true /\
  _reduction (fst (act obs1 None true "" five_noise unit_policy)) =
    Some torch_sum.
Proof.
  destruct (act_keeps_configuration unit_policy _
              (reach_act _ _ obs1 None true ""%string five_noise _ _
                 (reach_init _) (surjective_pairing _)))
    as (_ & _ & _ & _ & _ & H6 & _ & _ & H9).
  split; [exact H6|exact H9].
Defined.

Lemma act_propagates_provider_error_witness :
  act obs1 None true "" five_noise failing_policy =
  (failing_policy, Err (ProviderError "compute failed")).
Proof.
  exact (act_propagates_provider_error failing_policy obs1 None true ""
           five_noise _ eq_refl).
Defined.

Lemma act_scalar_mean_raises_witness :
  exists self',
    act obs1 None true "" five_noise scalar_mean_policy =
      (self', Err IndexError) /\
    _num_samples self' = None.
Proof.
  destruct (act_scalar_mean_raises scalar_mean_policy obs1 None true ""
              five_noise (scalar 0) (of_list [0]) eq_refl eq_refl)
    as (self' & Hact & _ & Hn & _).
  exists self'. split; [exact Hact|exact Hn].
Defined.

Lemma act_shape_mismatch_raises_witness :
  exists self',
    act obs1 None true "" five_noise mismatch_policy =
      (self', Err RuntimeError) /\
    _num_samples self' = Some 1%nat /\
    _distribution self' = None.
Proof.
  destruct (act_shape_mismatch_raises mismatch_policy obs1 None true ""
              five_noise (of_rows 2 [[0; 0]]) (of_list [0; 0; 0]) 1%nat
              [2%nat] eq_refl eq_refl eq_refl)
    as (self' & Hact & _ & Hn & Hd).
  exists self'. split; [exact Hact|]. split; [exact Hn|exact Hd].
Defined.

Lemma act_log_std_unclipped_witness :
  _log_std (fst (act obs1 None true "" five_noise raw_policy)) =
  Some (of_list [1000; -1000]).
Proof.
  destruct (act_log_std_unclipped raw_policy obs1 None true "" five_noise
              (of_rows 2 [[0; 0]]) (of_list [1000; -1000]) _ _
              eq_refl eq_refl (surjective_pairing _)) as [H _].
  exact H.
Defined.

Lemma act_log_std_saturates_witness :
  exists L,
    _log_std (fst (act obs1 None true "" five_noise wide_policy)) = Some L /\
    elem L [0%nat] = 2 /\ elem L [1%nat] = -20.
Proof.
  destruct (act_log_std_saturates wide_policy obs1 None true "" five_noise
              (of_rows 2 [[0; 0]]) (of_list [1000; -1000]) _ _
              eq_refl ltac:(cbn; lra) eq_refl (surjective_pairing _))
    as (L & HL & _ & Hel).
  exists L. split; [exact HL|]. split.
  - apply (Hel [0%nat]). cbn. lra.
  - apply (Hel [1%nat]). cbn. lra.
Defined.

Lemma act_sample_reparameterised_witness :
  exists s a lp mu,
    act obs1 None true "" unit_noise unit_policy = (s, Ok (a, lp, mu)) /\
    shape a = [1; 2]%nat.
Proof.
  eassert (Hact : act obs1 None true "" unit_noise unit_policy = _)
    by run_act.
  destruct (act_sample_reparameterised unit_policy obs1 None true ""
              unit_noise _ _ _ _ (of_list [0; 0]) eq_refl eq_refl Hact)
    as (sh & Hb & Hs & _).
  do 4 eexists. split; [exact Hact|].
  rewrite Hs. cbv in Hb. injection Hb as <-. reflexivity.
Defined.

Lemma clip_same_on_both_branches_witness :
  exists a,
    clip old_box_policy (of_rows 2 [[5; -5]]) = Ok a /\
    elem a [0; 0]%nat = Rmin (Rmax 5 (-1)) 1.
Proof.
  eassert (Hc : clip old_box_policy (of_rows 2 [[5; -5]]) = _)
    by reflexivity.
  eexists. split; [exact Hc|].
  apply (clip_same_on_both_branches old_box_policy _ _
           (of_list [-1; -1]) (of_list [1; 1])
           eq_refl eq_refl eq_refl eq_refl box_bounds_ordered Hc
           [0; 0]%nat).
  repeat constructor.
Defined.

Lemma clip_crossed_bounds_witness :
  (exists a, clip (crossed_policy true) (of_rows 2 [[0; 0]]) = Ok a /\
             elem a [0; 0]%nat = 1) /\
  (exists a, clip (crossed_policy false) (of_rows 2 [[0; 0]]) = Ok a /\
             elem a [0; 0]%nat = -1).
Proof.
  split.
  - eassert (Hc : clip (crossed_policy true) (of_rows 2 [[0; 0]]) = _)
      by reflexivity.
    eexists. split; [exact Hc|].
    apply (clip_crossed_bounds (crossed_policy true) _ _
             (of_list [1; 1]) (of_list [-1; -1]) [0; 0]%nat
             eq_refl eq_refl eq_refl ltac:(cbn; lra) Hc).
    reflexivity.
  - eassert (Hc : clip (crossed_policy false) (of_rows 2 [[0; 0]]) = _)
      by reflexivity.
    eexists. split; [exact Hc|].
    apply (clip_crossed_bounds (crossed_policy false) _ _
             (of_list [1; 1]) (of_list [-1; -1]) [0; 0]%nat
             eq_refl eq_refl eq_refl ltac:(cbn; lra) Hc).
    reflexivity.
Defined.


Lemma act_log_prob_of_taken_witness :
  exists s a lp mu,
    act obs1 (Some (of_rows 2 [[1; 1]])) true "" five_noise unit_policy =
      (s, Ok (a, lp, mu)) /\
    elem lp [0; 0]%nat =
    log_density 0 (exp (Rmin (Rmax 0 (-20)) 2)) 1 +
    (log_density 0 (exp (Rmin (Rmax 0 (-20)) 2)) 1 + 0).
Proof.
  eassert (Hact : act obs1 (Some (of_rows 2 [[1; 1]])) true "" five_noise
                    unit_policy = _) by run_act.
  assert (Hset : clip_attrs_set unit_policy).
  { intros H. discriminate H. }
  assert (Hb : bounds_fit unit_policy [1; 2]%nat).
  { split; intros t H; discriminate H. }
  destruct (act_log_prob_of_taken unit_policy obs1 (of_rows 2 [[1; 1]]) true
              "" five_noise _ _ _ _ (of_list [0; 0]) 1%nat 2%nat
              Hset Hb eq_refl eq_refl eq_refl eq_refl Hact) as [Hsum _].
  do 4 eexists. split; [exact Hact|].
  exact (Hsum torch_sum eq_refl O (Nat.lt_0_succ 0)).
Defined.

Lemma act_forgets_earlier_calls_witness :
  snd (act obs1 None true "" unit_noise
         (fst (act obs1 None true "" five_noise unit_policy))) =
  snd (act obs1 None true "" unit_noise unit_policy).
Proof.
  destruct (act_forgets_earlier_calls unit_policy _ obs1 None true ""%string
              unit_noise
              (reach_act _ _ obs1 None true ""%string five_noise _ _
                 (reach_init _) (surjective_pairing _))) as [H _].
  exact H.
Defined.

Lemma init_reads_bounds_first_witness :
  __init__ (model_of discrete_space failing_provider) (1, 13)%nat true true
    (-20) 2 "invalid" = Err (AttributeError "low").
Proof.
  destruct (init_reads_bounds_first
              (model_of discrete_space failing_provider) (1, 13)%nat true
              (-20) 2 "invalid" (mkGymSpace None None) eq_refl) as [H _].
  exact (H eq_refl).
Defined.

Lemma get_log_std_other_ranks_witness :
  (exists s a lp mu t,
     act obs1 None true "" five_noise scalar_log_std_policy =
       (s, Ok (a, lp, mu)) /\
     get_log_std s = Ok t /\ shape t = [1; 1]%nat) /\
  (exists s a lp mu,
     act obs1 None true "" five_noise rank3_policy = (s, Ok (a, lp, mu)) /\
     get_log_std s = Err RuntimeError).
Proof.
  split.
  - eassert (Hact : act obs1 None true "" five_noise scalar_log_std_policy
                      = _) by run_act.
    destruct (get_log_std_other_ranks _ _ _ _ _ _ _ _ _ _ (scalar 0)
                1%nat [2%nat] Hact eq_refl eq_refl) as [H _].
    destruct (H eq_refl) as (t & Ht & St & _).
    do 4 eexists. exists t. split; [exact Hact|]. split; [exact Ht|exact St].
  - eassert (Hact : act obs1 None true "" five_noise rank3_policy = _)
      by run_act.
    destruct (get_log_std_other_ranks _ _ _ _ _ _ _ _ _ _
                (mkTensor [1; 1; 1]%nat (fun _ => 0))
                1%nat [1; 1]%nat Hact eq_refl eq_refl) as [_ H].
    do 4 eexists. split; [exact Hact|]. apply H. cbn. lia.
Defined.

Lemma act_ignores_role_with_instantiator_witness :
  act obs1 None true "policy" five_noise instantiated_policy =
  act obs1 None true "value" five_noise instantiated_policy.
Proof.
  exact (act_ignores_role_with_instantiator instantiated_policy obs1 None
           true "policy" "value" five_noise eq_refl).
Defined.

Lemma act_shapes_any_rank_witness :
  exists self' a lp mu,
    act obs1 None true "" five_noise flat_policy = (self', Ok (a, lp, mu)) /\
    shape a = [2%nat] /\ shape lp = [1%nat].
Proof.
  eassert (Hact : act obs1 None true "" five_noise flat_policy = _)
    by run_act.
  assert (Ht : taken_fits None ([] ++ [2%nat])).
  { intros t H. discriminate H. }
  assert (Hb : bounds_fit flat_policy ([] ++ [2%nat])).
  { split; intros t H; discriminate H. }
  destruct (act_shapes_any_rank (base flat_policy) (1, 13)%nat false true
              (-20) 2 "sum" flat_policy flat_policy obs1 None true ""
              five_noise _ _ _ _ (of_list [0; 0]) [] 2%nat
              eq_refl (reach_init _) Hact eq_refl eq_refl eq_refl Ht Hb)
    as (Sa & Hred & _).
  do 4 eexists. split; [exact Hact|]. split; [exact Sa|].
  apply Hred. discriminate.
Defined.

Lemma transient_state_consistent_witness :
  exists s a lp mu d,
    act obs1 None true "" five_noise unit_policy = (s, Ok (a, lp, mu)) /\
    _distribution s = Some d /\
    0 < elem (scale d) [0; 0]%nat.
Proof.
  eassert (Hact : act obs1 None true "" five_noise unit_policy = _)
    by run_act.
  destruct (transient_state_consistent (base unit_policy) (1, 13)%nat false
              true (-20) 2 "sum" unit_policy _ eq_refl
              (reach_act _ _ obs1 None true ""%string five_noise _ _
                 (reach_init _) Hact)) as (_ & _ & H).
  do 5 eexists. split; [exact Hact|]. split; [reflexivity|].
  apply (H _ eq_refl).
Defined.

Lemma distribution_after_act_witness :
  distribution unit_policy = None /\
  exists s a lp mu d,
    act obs1 None true "" five_noise unit_policy = (s, Ok (a, lp, mu)) /\
    distribution s = Some d /\
    shape (loc d) = [1; 2]%nat.
Proof.
  destruct distribution_after_act as [H0 H1]. split.
  - exact (H0 (base unit_policy) (1, 13)%nat false true (-20) 2 "sum"%string
             unit_policy eq_refl).
  - eassert (Hact : act obs1 None true "" five_noise unit_policy = _)
      by run_act.
    destruct (H1 _ _ _ _ _ _ _ _ _ _ (of_list [0; 0]) Hact eq_refl)
      as (d & sh & Hd & Hb & Sl & _).
    do 4 eexists. exists d. split; [exact Hact|]. split; [exact Hd|].
    rewrite Sl. cbv in Hb. injection Hb as <-. reflexivity.
Defined.
